(** * Token bucket rate limiter (lib/tokenBucket.js)

    A shallow embedding of the [TokenBucket] constructor and of its two
    methods [accept] and [drip], followed by the properties of the
    admission algorithm.

    Modelling conventions.
    - A JavaScript number is an IEEE 754 binary64 value: Rocq's primitive
      [float], with its rounding, its two zeros, its infinities and [NaN].
      [Undefined] stands beside the numbers because policy fields and
      properties may be unset; arithmetic and comparisons convert it to
      [NaN] as ToNumber does.
    - [+new Date()] is an integral number of milliseconds; the reading
      sampled by [drip] is the argument [now : Z], and [JS.of_Z] is the
      number that holds it.
    - [Math.random().toString(36).slice(2)] is the argument [rnd].
    - [storage] is a plain object: its own properties are a finite map,
      and a key it does not own is looked up on [Object.prototype].  The
      realm keeps what the program can reach there: the built-in methods,
      [__proto__], and the properties [lastDrip] and [content] that [drip]
      writes when the object it is handed is [Object.prototype] itself or
      one of those built-ins.  Other additions a host program may make to
      [Object.prototype] are not represented. *)

From Stdlib Require Import Floats ZArith Lia Bool QArith Qminmax.
From stdpp Require Import gmap strings list fin_maps.

Local Open Scope Z_scope.

(** ** JavaScript values *)

Module JS.

Inductive value : Type :=
  | Undefined
  | Num (f : float).

(** ToNumber, restricted to what the program handles. *)
Definition to_number (v : value) : float :=
  match v with
  | Undefined => nan
  | Num f => f
  end.

(** ToBoolean: [undefined], [NaN] and the two zeros are falsy. *)
Definition truthy (v : value) : bool :=
  match v with
  | Undefined => false
  | Num f => negb (is_nan f || is_zero f)
  end.

(** [a + b], [a - b], [a * b], [a / b] on numbers and [undefined]. *)
Definition add (a b : value) : value := Num (to_number a + to_number b)%float.
Definition sub (a b : value) : value := Num (to_number a - to_number b)%float.
Definition mul (a b : value) : value := Num (to_number a * to_number b)%float.
Definition div (a b : value) : value := Num (to_number a / to_number b)%float.

(** [a > b] *)
Definition gt (a b : value) : bool := (to_number b <? to_number a)%float.

(** [a <= b] *)
Definition le (a b : value) : bool := (to_number a <=? to_number b)%float.

(** [a == b] on numbers: [NaN] equals nothing, the two zeros are equal. *)
Definition eqb (a b : value) : bool := (to_number a =? to_number b)%float.

(** [Math.min(a, b)]: [NaN] if either is; [-0] is below [+0]. *)
Definition fmin (a b : float) : float :=
  if is_nan a || is_nan b then nan
  else if (a <? b)%float then a
  else if (b <? a)%float then b
  else if get_sign a then a else b.

(** [Math.max(a, b)]: [NaN] if either is; [+0] is above [-0]. *)
Definition fmax (a b : float) : float :=
  if is_nan a || is_nan b then nan
  else if (a <? b)%float then b
  else if (b <? a)%float then a
  else if get_sign a then b else a.

Definition math_min (a b : value) : value := Num (fmin (to_number a) (to_number b)).
Definition math_max (a b : value) : value := Num (fmax (to_number a) (to_number b)).

(** The number that holds the integer [z] (the nearest one, when [z] is
    too long to be held exactly). *)
Definition of_Z (z : Z) : float :=
  SF2Prim (binary_normalize prec emax z 0 false).

(** [0 <= v <= hi], the range an account's level is meant to stay in. *)
Definition within (v hi : value) : bool := le (Num 0) v && le v hi.

(** The rational a finite number stands for. *)
Definition exact (f : float) : option Q :=
  match Prim2SF f with
  | S754_zero _ => Some 0%Q
  | S754_finite s m e =>
      Some ((if s then inject_Z (Zneg m) else inject_Z (Zpos m))
            * Qpower 2 e)%Q
  | _ => None
  end.

End JS.

(** ** Objects the program reaches *)

(** The record [{lastDrip: ..., content: ...}] made by [accept]. *)
Record App : Type := mkApp {
  lastDrip : Z;
  content : JS.value
}.

(** The properties [lastDrip] and [content] an object of the realm owns,
    each absent until [drip] or [accept] writes it. *)
Record Bag : Type := mkBag {
  bag_lastDrip : option Z;
  bag_content : option JS.value
}.

Definition empty_bag : Bag := {| bag_lastDrip := None; bag_content := None |}.

(** What the program can reach through [Object.prototype]: the properties
    written on [Object.prototype] itself, and those written on its
    built-in methods. *)
Record Realm : Type := mkRealm {
  object_prototype : Bag;
  builtin_fields : gmap string Bag
}.

(** The realm before anything was written to it. *)
Definition pristine : Realm :=
  {| object_prototype := empty_bag; builtin_fields := ∅ |}.

(** The methods every plain object inherits. *)
Definition builtin_names : list string :=
  ["constructor"; "__defineGetter__"; "__defineSetter__"; "hasOwnProperty";
   "__lookupGetter__"; "__lookupSetter__"; "isPrototypeOf";
   "propertyIsEnumerable"; "toString"; "valueOf"; "toLocaleString"]%string.

Definition is_builtin (k : string) : bool :=
  existsb (String.eqb k) builtin_names.

(** What [storage[k]] can evaluate to: a record made by [accept], a
    built-in method, [Object.prototype], or a number. *)
Inductive target : Type :=
  | TAccount (a : App)
  | TBuiltin (f : string)
  | TObjectPrototype
  | TPrimitive (p : float).

(** What [storage] owns under a key: a record, the built-in method of that
    name, or a number. *)
Inductive slot : Type :=
  | SAccount (a : App)
  | SBuiltin
  | SPrimitive (p : float).

Definition target_of_slot (k : string) (s : slot) : target :=
  match s with
  | SAccount a => TAccount a
  | SBuiltin => TBuiltin k
  | SPrimitive p => TPrimitive p
  end.

Definition fn_bag (r : Realm) (f : string) : Bag :=
  default empty_bag (builtin_fields r !! f).

(** [Object.prototype[k]], when it is defined. *)
Definition inherited (r : Realm) (k : string) : option target :=
  if is_builtin k then Some (TBuiltin k)
  else if String.eqb k "lastDrip" then
    match bag_lastDrip (object_prototype r) with
    | Some t => Some (TPrimitive (JS.of_Z t))
    | None => None
    end
  else if String.eqb k "content" then
    match bag_content (object_prototype r) with
    | Some (JS.Num p) => Some (TPrimitive p)
    | _ => None
    end
  else None.

(** [storage[k]], when it is defined: [__proto__] is the accessor of
    [Object.prototype]; otherwise the own property, else the inherited
    one. *)
Definition storage_get (r : Realm) (st : gmap string slot) (k : string)
    : option target :=
  if String.eqb k "__proto__" then Some TObjectPrototype
  else
    match st !! k with
    | Some s => Some (target_of_slot k s)
    | None => inherited r k
    end.

(** [storage[k] = t].  [Object.prototype] is only ever assigned to
    [__proto__], which sets the prototype to what it already is and
    creates no property. *)
Definition storage_set (st : gmap string slot) (k : string) (t : target)
    : gmap string slot :=
  match t with
  | TAccount a => <[k := SAccount a]> st
  | TBuiltin _ => <[k := SBuiltin]> st
  | TPrimitive p => <[k := SPrimitive p]> st
  | TObjectPrototype => st
  end.

(** ToBoolean of what [storage[k]] evaluates to. *)
Definition is_truthy (t : target) : bool :=
  match t with
  | TPrimitive p => JS.truthy (JS.Num p)
  | _ => true
  end.

(** [app.lastDrip]: the own property, else up the prototype chain, which
    for a method and for a number ends at [Object.prototype]. *)
Definition read_lastDrip (r : Realm) (app : target) : option Z :=
  match app with
  | TAccount a => Some (lastDrip a)
  | TBuiltin f =>
      match bag_lastDrip (fn_bag r f) with
      | Some t => Some t
      | None => bag_lastDrip (object_prototype r)
      end
  | TObjectPrototype | TPrimitive _ => bag_lastDrip (object_prototype r)
  end.

(** [app.content] *)
Definition read_content (r : Realm) (app : target) : JS.value :=
  match app with
  | TAccount a => content a
  | TBuiltin f =>
      match bag_content (fn_bag r f) with
      | Some v => v
      | None => default JS.Undefined (bag_content (object_prototype r))
      end
  | TObjectPrototype | TPrimitive _ =>
      default JS.Undefined (bag_content (object_prototype r))
  end.

(** [app.lastDrip = t]: on a number the assignment is dropped. *)
Definition write_lastDrip (r : Realm) (app : target) (t : Z)
    : Realm * target :=
  match app with
  | TAccount a => (r, TAccount {| lastDrip := t; content := content a |})
  | TBuiltin f =>
      ({| object_prototype := object_prototype r;
          builtin_fields :=
            <[f := {| bag_lastDrip := Some t;
                      bag_content := bag_content (fn_bag r f) |}]>
              (builtin_fields r) |}, app)
  | TObjectPrototype =>
      ({| object_prototype :=
            {| bag_lastDrip := Some t;
               bag_content := bag_content (object_prototype r) |};
          builtin_fields := builtin_fields r |}, app)
  | TPrimitive _ => (r, app)
  end.

(** [app.content = v] *)
Definition write_content (r : Realm) (app : target) (v : JS.value)
    : Realm * target :=
  match app with
  | TAccount a => (r, TAccount {| lastDrip := lastDrip a; content := v |})
  | TBuiltin f =>
      ({| object_prototype := object_prototype r;
          builtin_fields :=
            <[f := {| bag_lastDrip := bag_lastDrip (fn_bag r f);
                      bag_content := Some v |}]>
              (builtin_fields r) |}, app)
  | TObjectPrototype =>
      ({| object_prototype :=
            {| bag_lastDrip := bag_lastDrip (object_prototype r);
               bag_content := Some v |};
          builtin_fields := builtin_fields r |}, app)
  | TPrimitive _ => (r, app)
  end.

(** A reading of the clock, or [undefined], as a value. *)
Definition time_value (t : option Z) : JS.value :=
  match t with
  | Some t => JS.Num (JS.of_Z t)
  | None => JS.Undefined
  end.

(** ** The bucket pool *)

(** The instance.  [interval] is the instance's own property: [None] when
    the constructor assigned nothing, in which case reads reach the
    prototype. *)
Record TokenBucket : Type := mkTokenBucket {
  bucketSize : JS.value;
  tokensPerInterval : JS.value;
  interval : option JS.value;
  self_content : JS.value;
  self_lastDrip : Z;
  storage : gmap string slot
}.

(** The third constructor argument: a string or anything else. *)
Inductive interval_arg : Type :=
  | IString (s : string)
  | IValue (v : JS.value).

(** [TokenBucket.prototype.interval] *)
Definition prototype_interval : JS.value := JS.Num 1000.

(** The [switch] of the constructor; [None] when no [case] matches. *)
Definition interval_of_string (s : string) : option JS.value :=
  if (String.eqb s "sec" || String.eqb s "second")%bool then
    Some (JS.Num 1000)
  else if (String.eqb s "min" || String.eqb s "minute")%bool then
    Some (JS.Num (1000 * 60))
  else if (String.eqb s "hr" || String.eqb s "hour")%bool then
    Some (JS.Num (1000 * 60 * 60))
  else if String.eqb s "day" then
    Some (JS.Num (1000 * 60 * 60 * 24))
  else None.

(** [new TokenBucket(bucketSize, tokensPerInterval, interval)], built when
    the clock reads [now]. *)
Definition new_TokenBucket (bucketSize tokensPerInterval : JS.value)
    (interval : interval_arg) (now : Z) : TokenBucket :=
  {| bucketSize := bucketSize;
     tokensPerInterval := tokensPerInterval;
     interval :=
       match interval with
       | IString s => interval_of_string s
       | IValue v => Some v
       end;
     self_content := JS.Num 0;
     self_lastDrip := now;
     storage := ∅ |}.

(** [this.interval]: the own property, else the prototype's. *)
Definition get_interval (self : TokenBucket) : JS.value :=
  default prototype_interval (interval self).

Definition set_storage (self : TokenBucket) (st : gmap string slot)
    : TokenBucket :=
  {| bucketSize := bucketSize self;
     tokensPerInterval := tokensPerInterval self;
     interval := interval self;
     self_content := self_content self;
     self_lastDrip := self_lastDrip self;
     storage := st |}.

(** [tokensPerInterval / interval] as [drip] computes it. *)
Definition ratio (self : TokenBucket) : JS.value :=
  JS.div (tokensPerInterval self) (get_interval self).

(** [Math.max(now - app.lastDrip, 0)] *)
Definition deltaMS (r : Realm) (app : target) (now : Z) : JS.value :=
  JS.math_max (JS.sub (JS.Num (JS.of_Z now)) (time_value (read_lastDrip r app)))
              (JS.Num 0).

(** The level [drip] assigns under a truthy rate. *)
Definition refilled (self : TokenBucket) (level delta : JS.value) : JS.value :=
  JS.math_min (JS.add level (JS.mul delta (ratio self))) (bucketSize self).

(** [drip(app)], with [now] the reading of [+new Date()]: the realm and
    the object [app] after the call. *)
Definition drip (self : TokenBucket) (r : Realm) (app : target) (now : Z)
    : Realm * target :=
  if negb (JS.truthy (tokensPerInterval self)) then
    write_content r app (bucketSize self)
  else
    let delta := deltaMS r app now in
    let w := write_lastDrip r app now in
    write_content (fst w) (snd w)
      (refilled self (read_content (fst w) (snd w)) delta).

(** [uniqueID || Math.random().toString(36).slice(2)]: an absent or empty
    identity is replaced by the generated string. *)
Definition resolve (uniqueID : option string) (rnd : string) : string :=
  match uniqueID with
  | Some s => if String.eqb s "" then rnd else s
  | None => rnd
  end.

(** The literal [{lastDrip: 0, content: 0}]. *)
Definition new_app : App := {| lastDrip := 0; content := JS.Num 0 |}.

(** [storage[k] || {lastDrip: 0, content: 0}] *)
Definition found_or_new (r : Realm) (st : gmap string slot) (k : string)
    : target :=
  match storage_get r st k with
  | Some t => if is_truthy t then t else TAccount new_app
  | None => TAccount new_app
  end.

(** The realm together with the instance. *)
Record World : Type := mkWorld {
  realm : Realm;
  bucket : TokenBucket
}.

(** [accept(count, uniqueID)]: the returned boolean, and the realm and the
    instance after the call.  [app] is the object [storage[uniqueID]], so
    what [drip] and the final debit write to a record is written to the
    stored record. *)
Definition accept (w : World) (count : JS.value) (uniqueID : option string)
    (rnd : string) (now : Z) : bool * World :=
  let self := bucket w in
  let uniqueID := resolve uniqueID rnd in
  let app := found_or_new (realm w) (storage self) uniqueID in
  let self := set_storage self (storage_set (storage self) uniqueID app) in
  if negb (JS.truthy (bucketSize self)) then (true, mkWorld (realm w) self)
  else if JS.gt count (bucketSize self) then (false, mkWorld (realm w) self)
  else
    let d := drip self (realm w) app now in
    let self := set_storage self (storage_set (storage self) uniqueID (snd d)) in
    if JS.gt count (read_content (fst d) (snd d)) then
      (false, mkWorld (fst d) self)
    else
      let c := write_content (fst d) (snd d)
                 (JS.sub (read_content (fst d) (snd d)) count) in
      (true,
       mkWorld (fst c)
         (set_storage self (storage_set (storage self) uniqueID (snd c)))).

(** One call of [accept] together with what the environment supplies. *)
Record call : Type := mkCall {
  call_count : JS.value;
  call_uniqueID : option string;
  call_rnd : string;
  call_now : Z
}.

Definition step (w : World) (c : call) : World :=
  snd (accept w (call_count c) (call_uniqueID c) (call_rnd c) (call_now c)).

(** The world after a sequence of calls, oldest first. *)
Definition run (w : World) (cs : list call) : World :=
  fold_left step cs w.

(** The booleans returned along a sequence of calls. *)
Fixpoint answers (w : World) (cs : list call) : list bool :=
  match cs with
  | [] => []
  | c :: cs =>
      fst (accept w (call_count c) (call_uniqueID c) (call_rnd c)
             (call_now c))
      :: answers (step w c) cs
  end.

(** The worlds reached after each call of a sequence, oldest first. *)
Fixpoint states (w : World) (cs : list call) : list World :=
  match cs with
  | [] => []
  | c :: cs => step w c :: states (step w c) cs
  end.

(** The account of [k] as [accept] sees it: what [storage[k]] evaluates
    to, when that is truthy. *)
Definition account_of (w : World) (k : string) : option target :=
  match storage_get (realm w) (storage (bucket w)) k with
  | Some t => if is_truthy t then Some t else None
  | None => None
  end.

(** The level of the account of [k], when there is one. *)
Definition level (w : World) (k : string) : option JS.value :=
  read_content (realm w) <$> account_of w k.

(** The [lastDrip] of the account of [k], when there is one and it is
    defined. *)
Definition last_refill (w : World) (k : string) : option Z :=
  account_of w k ≫= read_lastDrip (realm w).

(** A new instance in a realm nothing was written to. *)
Definition new_world (bucketSize tokensPerInterval : JS.value)
    (interval : interval_arg) (now : Z) : World :=
  mkWorld pristine (new_TokenBucket bucketSize tokensPerInterval interval now).

(** ** Derived notions *)

(** The body of [accept] from the first test on, for the object [app]
    that [storage[uniqueID]] evaluated to: the returned boolean, the realm
    and the object afterwards. *)
Definition serve (self : TokenBucket) (r : Realm) (app : target)
    (count : JS.value) (now : Z) : bool * (Realm * target) :=
  if negb (JS.truthy (bucketSize self)) then (true, (r, app))
  else if JS.gt count (bucketSize self) then (false, (r, app))
  else
    let d := drip self r app now in
    if JS.gt count (read_content (fst d) (snd d)) then (false, d)
    else
      (true,
       write_content (fst d) (snd d)
         (JS.sub (read_content (fst d) (snd d)) count)).

(** The object is a number. *)
Definition is_primitive (t : target) : bool :=
  match t with
  | TPrimitive _ => true
  | _ => false
  end.

(** The same object, whatever its fields hold. *)
Definition same_object (a b : target) : Prop :=
  match a, b with
  | TAccount _, TAccount _ => True
  | TBuiltin f, TBuiltin g => f = g
  | TObjectPrototype, TObjectPrototype => True
  | TPrimitive p, TPrimitive q => p = q
  | _, _ => False
  end.

(** What [storage[k]] can evaluate to, given the key. *)
Definition fits (k : string) (t : target) : Prop :=
  match t with
  | TObjectPrototype => k = "__proto__"%string
  | TBuiltin f => f = k /\ k <> "__proto__"%string
  | _ => k <> "__proto__"%string
  end.

(** A list of integers that never goes down. *)
Fixpoint nondecreasing (l : list Z) : Prop :=
  match l with
  | x :: t =>
      match t with
      | y :: _ => x <= y
      | [] => True
      end /\ nondecreasing t
  | [] => True
  end.

(** The successive values of [lastDrip] of the account of [k], from the
    world [w] on and after each call; nothing is listed while the account
    does not exist or has no timestamp. *)
Definition refill_times (k : string) (w : World) (cs : list call) : list Z :=
  omap (fun s => last_refill s k) (w :: states w cs).

(** The strings the constructor's [switch] has a [case] for. *)
Definition recognized : list string :=
  ["sec"; "second"; "min"; "minute"; "hr"; "hour"; "day"]%string.

(** The account of [k] exists and its level is in [0 .. bucketSize]. *)
Definition level_within (k : string) (w : World) : Prop :=
  exists v, level w k = Some v
            /\ JS.within v (bucketSize (bucket w)) = true.

(** A number that is neither [NaN] nor infinite. *)
Definition finite (v : JS.value) : bool :=
  match v with
  | JS.Undefined => false
  | JS.Num f => is_finite f
  end.

(** The refill as the specification words it, in exact arithmetic on
    rationals: [elapsed = max(now - lastRefill, 0)] and the level raised
    by [elapsed * (refillRate / refillInterval)], capped at [capacity]. *)
Definition refill_spec (capacity refillRate refillInterval : Q)
    (lastRefill : Z) (level : Q) (now : Z) : Q :=
  let elapsed := Z.max (now - lastRefill) 0 in
  Qmin (level + inject_Z elapsed * (refillRate / refillInterval)) capacity.

(** The policies under which a refill cannot push a level out of
    [0 .. bucketSize]: no rate at all, or a rate per millisecond that is
    a finite number above zero. *)
Definition rate_ok (self : TokenBucket) : bool :=
  negb (JS.truthy (tokensPerInterval self))
  || (finite (ratio self) && JS.gt (ratio self) (JS.Num 0)).

(** The record is one the range invariant holds of: its level is in
    [0 .. bucketSize] and its timestamp is a finite number. *)
Definition sound (self : TokenBucket) (t : target) : Prop :=
  exists a, t = TAccount a
            /\ JS.within (content a) (bucketSize self) = true
            /\ is_finite (JS.of_Z (lastDrip a)) = true.

(** ** Numbers as specified by IEEE 754 *)

(** The sign bit. *)
Definition SFsign (x : spec_float) : bool :=
  match x with
  | S754_zero s | S754_infinity s | S754_finite s _ _ => s
  | S754_nan => false
  end.

(** [Math.min] and [Math.max] on specified numbers. *)
Definition SFmin (x y : spec_float) : spec_float :=
  match SFcompare x y with
  | None => S754_nan
  | Some Lt => x
  | Some Gt => y
  | Some Eq => if SFsign x then x else y
  end.

Definition SFmax (x y : spec_float) : spec_float :=
  match SFcompare x y with
  | None => S754_nan
  | Some Lt => y
  | Some Gt => x
  | Some Eq => if SFsign x then y else x
  end.

(** The specified number a value converts to. *)
Definition SFof (v : JS.value) : spec_float := Prim2SF (JS.to_number v).

(** The same number, up to the sign of zero. *)
Definition SFsame (a b : spec_float) : Prop :=
  a = b \/ exists s s', a = S754_zero s /\ b = S754_zero s'.

(** The number of sign [s], mantissa [m] (at most [2^53]) and exponent
    [e], as rounding packs it: a mantissa of [2^53] is renormalised, an
    exponent beyond the format gives an infinity. *)
Definition SFpack (s : bool) (m e : Z) : spec_float :=
  match m with
  | Z0 => S754_zero s
  | Zpos p =>
      if Z.eqb m 9007199254740992 then
        if Z.leb (e + 1) 971 then S754_finite s 4503599627370496 (e + 1)
        else S754_infinity s
      else if Z.leb e 971 then S754_finite s p e else S754_infinity s
  | Zneg _ => S754_nan
  end.

(** A number of the given sign. *)
Definition SFsigned (s : bool) (x : spec_float) : Prop :=
  match x with
  | S754_zero s' | S754_infinity s' | S754_finite s' _ _ => s' = s
  | S754_nan => False
  end.

(** A number that is not negative: a zero, a double above zero, or
    [Infinity]. *)
Definition SFnonneg (x : spec_float) : Prop :=
  match x with
  | S754_zero _ | S754_finite false _ _ | S754_infinity false => True
  | _ => False
  end.

(** ** Worked examples: the end-to-end scenario of the specification *)

Definition pool5 : World :=
  new_world (JS.Num 5) (JS.Num 5) (IString "second") 1000000.

Definition scenario : list call :=
  [ mkCall (JS.Num 5) (Some "u1"%string) "r" 1000000;
    mkCall (JS.Num 1) (Some "u1"%string) "r" 1000000;
    mkCall (JS.Num 5) (Some "u1"%string) "r" 1001000;
    mkCall (JS.Num 1) (Some "u1"%string) "r" 1001000 ].

Example scenario_answers :
  answers pool5 scenario = [true; false; true; false].
Proof. vm_compute. reflexivity. Qed.

Example scenario_level :
  level (run pool5 scenario) "u1" = Some (JS.Num 0).
Proof. vm_compute. reflexivity. Qed.

(** The refill property of the specification: 10 tokens per second, a drained
    bucket, and half a second later 5 tokens are there but not 6. *)
Example refill_half_second :
  let w := new_world (JS.Num 10) (JS.Num 10) (IValue (JS.Num 1000)) 0 in
  let drained := run w [mkCall (JS.Num 10) (Some "u"%string) "r" 7000] in
  level drained "u" = Some (JS.Num 0)
  /\ fst (accept drained (JS.Num 6) (Some "u"%string) "r" 7500) = false
  /\ fst (accept drained (JS.Num 5) (Some "u"%string) "r" 7500) = true.
Proof. vm_compute. repeat split. Qed.

(** * Numbers *)

(** ** Comparisons and the primitive operations *)

Section Numbers.

Lemma SFcompare_refl (x : spec_float) :
  x <> S754_nan -> SFcompare x x = Some Eq.
Proof.
  destruct x as [s|s| |s m e]; intros H; try contradiction; cbn.
  - reflexivity.
  - destruct s; reflexivity.
  - rewrite Z.compare_refl, Pos.compare_cont_refl. destruct s; reflexivity.
Qed.

Lemma SFcompare_antisym (x y : spec_float) :
  SFcompare y x = option_map CompOpp (SFcompare x y).
Proof.
  destruct x as [s|s| |s m e], y as [s'|s'| |s' m' e']; cbn;
    try reflexivity;
    try (destruct s; reflexivity); try (destruct s'; reflexivity);
    try (destruct s, s'; reflexivity).
  destruct s, s'; try reflexivity;
    rewrite (Z.compare_antisym e e');
    change (Pos.compare_cont Eq m' m)
      with (Pos.compare_cont (CompOpp Eq) m' m);
    rewrite <- (Pos.compare_cont_antisym m m' Eq);
    destruct (e ?= e'); cbn; try reflexivity;
    destruct (Pos.compare_cont Eq m m'); reflexivity.
Qed.

Lemma SFcompare_None (x y : spec_float) :
  SFcompare x y = None <-> x = S754_nan \/ y = S754_nan.
Proof.
  destruct x as [s|s| |s m e], y as [s'|s'| |s' m' e']; cbn;
    intuition (try discriminate; try congruence).
Qed.

Lemma SFcompare_Eq (x y : spec_float) :
  SFcompare x y = Some Eq ->
  x = y \/ exists s s', x = S754_zero s /\ y = S754_zero s'.
Proof.
  destruct x as [s|s| |s m e], y as [s'|s'| |s' m' e']; cbn;
    try discriminate; try (destruct s; discriminate);
    try (destruct s'; discriminate).
  - intros _. right. eauto.
  - destruct s, s'; try discriminate; auto.
  - destruct s, s'; try discriminate;
      destruct (e ?= e') eqn:Ee; try discriminate;
      destruct (Pos.compare_cont Eq m m') eqn:Em; try discriminate;
      intros _; apply Z.compare_eq in Ee; apply Pos.compare_eq in Em;
      subst; auto.
Qed.

(** The two zeros compare alike with everything. *)
Lemma SFcompare_zero_l (s s' : bool) (y : spec_float) :
  SFcompare (S754_zero s) y = SFcompare (S754_zero s') y.
Proof. destruct y; reflexivity. Qed.

Lemma SFcompare_zero_r (s s' : bool) (x : spec_float) :
  SFcompare x (S754_zero s) = SFcompare x (S754_zero s').
Proof. destruct x; reflexivity. Qed.

Lemma is_nan_SF (f : float) :
  is_nan f = match Prim2SF f with S754_nan => true | _ => false end.
Proof.
  unfold is_nan. rewrite FloatAxioms.eqb_spec. unfold SFeqb.
  destruct (Prim2SF f) eqn:E.
  - reflexivity.
  - rewrite SFcompare_refl by discriminate. reflexivity.
  - reflexivity.
  - rewrite SFcompare_refl by discriminate. reflexivity.
Qed.

Lemma Prim2SF_zero : Prim2SF zero = S754_zero false.
Proof. reflexivity. Qed.

Lemma Prim2SF_one : Prim2SF one = S754_finite false 4503599627370496 (-52).
Proof. reflexivity. Qed.

Lemma Prim2SF_nan : Prim2SF nan = S754_nan.
Proof. reflexivity. Qed.

Lemma is_zero_SF (f : float) :
  is_zero f = match Prim2SF f with S754_zero _ => true | _ => false end.
Proof.
  unfold is_zero. rewrite FloatAxioms.eqb_spec, Prim2SF_zero. unfold SFeqb.
  destruct (Prim2SF f) as [s|s| |s m e]; cbn; try reflexivity;
    destruct s; reflexivity.
Qed.

Lemma is_infinity_SF (f : float) :
  is_infinity f = match Prim2SF f with S754_infinity _ => true | _ => false end.
Proof.
  unfold is_infinity. rewrite FloatAxioms.eqb_spec, abs_spec.
  change (Prim2SF infinity) with (S754_infinity false). unfold SFeqb.
  destruct (Prim2SF f) as [s|s| |s m e]; cbn; reflexivity.
Qed.

Lemma is_finite_SF (f : float) :
  is_finite f = match Prim2SF f with
                | S754_zero _ | S754_finite _ _ _ => true
                | _ => false
                end.
Proof.
  unfold is_finite. rewrite is_nan_SF, is_infinity_SF.
  destruct (Prim2SF f); reflexivity.
Qed.

Lemma get_sign_SF (f : float) : get_sign f = SFsign (Prim2SF f).
Proof.
  unfold get_sign. rewrite is_zero_SF.
  destruct (Prim2SF f) as [s|s| |s m e] eqn:E.
  - rewrite FloatAxioms.ltb_spec, div_spec, Prim2SF_one, Prim2SF_zero, E. cbn.
    destruct s; reflexivity.
  - rewrite FloatAxioms.ltb_spec, Prim2SF_zero, E. cbn. destruct s; reflexivity.
  - rewrite FloatAxioms.ltb_spec, Prim2SF_zero, E. reflexivity.
  - rewrite FloatAxioms.ltb_spec, Prim2SF_zero, E. cbn. destruct s; reflexivity.
Qed.

Lemma fmin_SF (a b : float) :
  Prim2SF (JS.fmin a b) = SFmin (Prim2SF a) (Prim2SF b).
Proof.
  unfold JS.fmin, SFmin.
  rewrite !is_nan_SF, !FloatAxioms.ltb_spec, get_sign_SF. unfold SFltb.
  rewrite (SFcompare_antisym (Prim2SF a) (Prim2SF b)).
  destruct (SFcompare (Prim2SF a) (Prim2SF b)) as [c|] eqn:E.
  - assert (Ha : Prim2SF a <> S754_nan).
    { intros H. rewrite H in E. discriminate. }
    assert (Hb : Prim2SF b <> S754_nan).
    { intros H. rewrite H in E. destruct (Prim2SF a); discriminate. }
    destruct (Prim2SF a) eqn:Ea; try contradiction;
      destruct (Prim2SF b) eqn:Eb; try contradiction;
      destruct c; cbn [orb option_map CompOpp SFsign];
      try (destruct s; assumption); try assumption.
  - apply SFcompare_None in E. destruct E as [E|E]; rewrite E.
    + reflexivity.
    + destruct (Prim2SF a); reflexivity.
Qed.

Lemma fmax_SF (a b : float) :
  Prim2SF (JS.fmax a b) = SFmax (Prim2SF a) (Prim2SF b).
Proof.
  unfold JS.fmax, SFmax.
  rewrite !is_nan_SF, !FloatAxioms.ltb_spec, get_sign_SF. unfold SFltb.
  rewrite (SFcompare_antisym (Prim2SF a) (Prim2SF b)).
  destruct (SFcompare (Prim2SF a) (Prim2SF b)) as [c|] eqn:E.
  - assert (Ha : Prim2SF a <> S754_nan).
    { intros H. rewrite H in E. discriminate. }
    assert (Hb : Prim2SF b <> S754_nan).
    { intros H. rewrite H in E. destruct (Prim2SF a); discriminate. }
    destruct (Prim2SF a) eqn:Ea; try contradiction;
      destruct (Prim2SF b) eqn:Eb; try contradiction;
      destruct c; cbn [orb option_map CompOpp SFsign];
      try (destruct s; assumption); try assumption.
  - apply SFcompare_None in E. destruct E as [E|E]; rewrite E.
    + reflexivity.
    + destruct (Prim2SF a); reflexivity.
Qed.

End Numbers.

(** * Objects, storage and the shape of a call *)

(** ** Objects: reading back what was written *)

Section Objects.

Lemma same_object_refl (t : target) : same_object t t.
Proof. destruct t; cbn; auto. Qed.

Lemma same_object_trans (a b c : target) :
  same_object a b -> same_object b c -> same_object a c.
Proof. destruct a, b, c; cbn; intuition congruence. Qed.

Lemma write_lastDrip_same (r : Realm) (t : target) (z : Z) :
  same_object t (snd (write_lastDrip r t z)).
Proof. destruct t; cbn; auto. Qed.

Lemma write_content_same (r : Realm) (t : target) (v : JS.value) :
  same_object t (snd (write_content r t v)).
Proof. destruct t; cbn; auto. Qed.

Lemma fits_same (k : string) (a b : target) :
  same_object a b -> fits k a -> fits k b.
Proof. destruct a, b; cbn; intuition congruence. Qed.

Lemma is_primitive_same (a b : target) :
  same_object a b -> is_primitive b = is_primitive a.
Proof. destruct a, b; cbn; intuition congruence. Qed.

Lemma is_truthy_same (a b : target) :
  same_object a b -> is_truthy b = is_truthy a.
Proof. destruct a, b; cbn; intuition congruence. Qed.

Lemma fn_bag_insert (r : Realm) (f : string) (b : Bag) (o : Bag) :
  fn_bag {| object_prototype := o;
            builtin_fields := <[f := b]> (builtin_fields r) |} f = b.
Proof. unfold fn_bag. cbn. rewrite lookup_insert_eq. reflexivity. Qed.

(** On anything but a number, a property reads back as written and
    leaves the other property as it was. *)
Lemma read_content_write_content (r : Realm) (t : target) (v : JS.value) :
  is_primitive t = false ->
  read_content (fst (write_content r t v)) (snd (write_content r t v)) = v.
Proof.
  destruct t; intros H; try discriminate; cbn; try reflexivity.
  rewrite fn_bag_insert. reflexivity.
Qed.

Lemma read_lastDrip_write_lastDrip (r : Realm) (t : target) (z : Z) :
  is_primitive t = false ->
  read_lastDrip (fst (write_lastDrip r t z)) (snd (write_lastDrip r t z))
  = Some z.
Proof.
  destruct t; intros H; try discriminate; cbn; try reflexivity.
  rewrite fn_bag_insert. reflexivity.
Qed.

Lemma read_content_write_lastDrip (r : Realm) (t : target) (z : Z) :
  read_content (fst (write_lastDrip r t z)) (snd (write_lastDrip r t z))
  = read_content r t.
Proof.
  destruct t; cbn; try reflexivity.
  rewrite fn_bag_insert. reflexivity.
Qed.

Lemma read_lastDrip_write_content (r : Realm) (t : target) (v : JS.value) :
  read_lastDrip (fst (write_content r t v)) (snd (write_content r t v))
  = read_lastDrip r t.
Proof.
  destruct t; cbn; try reflexivity.
  rewrite fn_bag_insert. reflexivity.
Qed.

(** A number takes no property. *)
Lemma write_content_primitive (r : Realm) (t : target) (v : JS.value) :
  is_primitive t = true -> write_content r t v = (r, t).
Proof. destruct t; intros H; try discriminate. reflexivity. Qed.

Lemma write_lastDrip_primitive (r : Realm) (t : target) (z : Z) :
  is_primitive t = true -> write_lastDrip r t z = (r, t).
Proof. destruct t; intros H; try discriminate. reflexivity. Qed.

(** Writing to a record leaves the realm alone. *)
Lemma write_content_record (r : Realm) (a : App) (v : JS.value) :
  write_content r (TAccount a) v
  = (r, TAccount {| lastDrip := lastDrip a; content := v |}).
Proof. reflexivity. Qed.

(** Only a write to [Object.prototype] itself changes its properties. *)
Lemma write_content_prototype (r : Realm) (t : target) (v : JS.value) :
  t <> TObjectPrototype ->
  object_prototype (fst (write_content r t v)) = object_prototype r.
Proof. destruct t; intros H; try contradiction; reflexivity. Qed.

Lemma write_lastDrip_prototype (r : Realm) (t : target) (z : Z) :
  t <> TObjectPrototype ->
  object_prototype (fst (write_lastDrip r t z)) = object_prototype r.
Proof. destruct t; intros H; try contradiction; reflexivity. Qed.

(** Only a write to the method [f] changes the properties of [f]. *)
Lemma write_content_builtin (r : Realm) (t : target) (v : JS.value)
    (f : string) :
  t <> TBuiltin f ->
  fn_bag (fst (write_content r t v)) f = fn_bag r f.
Proof.
  destruct t as [a|g| |p]; intros H; try reflexivity.
  unfold fn_bag. cbn. rewrite lookup_insert_ne by congruence. reflexivity.
Qed.

Lemma write_lastDrip_builtin (r : Realm) (t : target) (z : Z) (f : string) :
  t <> TBuiltin f ->
  fn_bag (fst (write_lastDrip r t z)) f = fn_bag r f.
Proof.
  destruct t as [a|g| |p]; intros H; try reflexivity.
  unfold fn_bag. cbn. rewrite lookup_insert_ne by congruence. reflexivity.
Qed.

End Objects.

(** ** The refill and the decision on one object *)

Section Serving.

Lemma drip_set_storage (self : TokenBucket) (st : gmap string slot)
    (r : Realm) (app : target) (now : Z) :
  drip (set_storage self st) r app now = drip self r app now.
Proof. reflexivity. Qed.

Lemma drip_same (self : TokenBucket) (r : Realm) (t : target) (now : Z) :
  same_object t (snd (drip self r t now)).
Proof.
  unfold drip. destruct (negb (JS.truthy (tokensPerInterval self))).
  - apply write_content_same.
  - cbv zeta. eapply same_object_trans; [apply write_lastDrip_same|].
    apply write_content_same.
Qed.

Lemma serve_same (self : TokenBucket) (r : Realm) (t : target)
    (count : JS.value) (now : Z) :
  same_object t (snd (snd (serve self r t count now))).
Proof.
  unfold serve.
  destruct (negb (JS.truthy (bucketSize self))); [apply same_object_refl|].
  destruct (JS.gt count (bucketSize self)); [apply same_object_refl|].
  cbv zeta.
  destruct (JS.gt count _); cbn [snd].
  - apply drip_same.
  - eapply same_object_trans; [apply drip_same|apply write_content_same].
Qed.

(** On a number the refill and the debit write nothing. *)
Lemma drip_primitive (self : TokenBucket) (r : Realm) (p : float) (now : Z) :
  drip self r (TPrimitive p) now = (r, TPrimitive p).
Proof.
  unfold drip.
  destruct (negb (JS.truthy (tokensPerInterval self))); reflexivity.
Qed.

Lemma drip_prototype (self : TokenBucket) (r : Realm) (t : target) (now : Z) :
  t <> TObjectPrototype ->
  object_prototype (fst (drip self r t now)) = object_prototype r.
Proof.
  intros H. unfold drip.
  destruct (negb (JS.truthy (tokensPerInterval self))).
  - apply write_content_prototype. exact H.
  - cbv zeta. rewrite write_content_prototype.
    + apply write_lastDrip_prototype. exact H.
    + destruct t; try contradiction; discriminate.
Qed.

Lemma drip_builtin (self : TokenBucket) (r : Realm) (t : target) (now : Z)
    (f : string) :
  t <> TBuiltin f ->
  fn_bag (fst (drip self r t now)) f = fn_bag r f.
Proof.
  intros H. unfold drip.
  destruct (negb (JS.truthy (tokensPerInterval self))).
  - apply write_content_builtin. exact H.
  - cbv zeta. rewrite write_content_builtin.
    + apply write_lastDrip_builtin. exact H.
    + destruct t; cbn; congruence.
Qed.

Lemma serve_prototype (self : TokenBucket) (r : Realm) (t : target)
    (count : JS.value) (now : Z) :
  t <> TObjectPrototype ->
  object_prototype (fst (snd (serve self r t count now))) = object_prototype r.
Proof.
  intros H. unfold serve.
  destruct (negb (JS.truthy (bucketSize self))); [reflexivity|].
  destruct (JS.gt count (bucketSize self)); [reflexivity|].
  cbv zeta. destruct (JS.gt count _); cbn [fst snd].
  - apply drip_prototype. exact H.
  - rewrite write_content_prototype; [apply drip_prototype; exact H|].
    pose proof (drip_same self r t now) as Hs.
    intros E. rewrite E in Hs. destruct t; cbn in Hs; contradiction.
Qed.

Lemma serve_builtin (self : TokenBucket) (r : Realm) (t : target)
    (count : JS.value) (now : Z) (f : string) :
  t <> TBuiltin f ->
  fn_bag (fst (snd (serve self r t count now))) f = fn_bag r f.
Proof.
  intros H. unfold serve.
  destruct (negb (JS.truthy (bucketSize self))); [reflexivity|].
  destruct (JS.gt count (bucketSize self)); [reflexivity|].
  cbv zeta. destruct (JS.gt count _); cbn [fst snd].
  - apply drip_builtin. exact H.
  - rewrite write_content_builtin; [apply drip_builtin; exact H|].
    pose proof (drip_same self r t now) as Hs.
    intros E. rewrite E in Hs. destruct t; cbn in Hs; try contradiction.
    congruence.
Qed.

End Serving.

(** ** The storage and its prototype *)

Section Storage.

Lemma resolve_explicit (s rnd : string) :
  s <> ""%string -> resolve (Some s) rnd = s.
Proof.
  intros H. unfold resolve. destruct (String.eqb_spec s ""); [contradiction|].
  reflexivity.
Qed.

Lemma storage_get_proto (r : Realm) (st : gmap string slot) :
  storage_get r st "__proto__" = Some TObjectPrototype.
Proof. reflexivity. Qed.

Lemma storage_get_fits (r : Realm) (st : gmap string slot) (k : string)
    (t : target) :
  storage_get r st k = Some t -> fits k t.
Proof.
  unfold storage_get. destruct (String.eqb_spec k "__proto__") as [->|Hk].
  - intros [= <-]. reflexivity.
  - destruct (st !! k) as [s|].
    + intros [= <-]. destruct s; cbn; auto.
    + unfold inherited. destruct (is_builtin k).
      * intros [= <-]. cbn. auto.
      * destruct (String.eqb k "lastDrip").
        { destruct (bag_lastDrip _); intros [= <-]. exact Hk. }
        destruct (String.eqb k "content"); [|discriminate].
        destruct (bag_content _) as [[|p]|]; intros [= <-]. exact Hk.
Qed.

Lemma found_or_new_fits (r : Realm) (st : gmap string slot) (k : string) :
  fits k (found_or_new r st k).
Proof.
  unfold found_or_new. destruct (storage_get r st k) as [t|] eqn:E.
  - destruct (is_truthy t) eqn:Et.
    + eapply storage_get_fits. exact E.
    + cbn. intros Hk. subst k. rewrite storage_get_proto in E.
      injection E as <-. discriminate.
  - cbn. intros Hk. subst k. discriminate.
Qed.

Lemma found_or_new_truthy (r : Realm) (st : gmap string slot) (k : string) :
  is_truthy (found_or_new r st k) = true.
Proof.
  unfold found_or_new. destruct (storage_get r st k) as [t|]; [|reflexivity].
  destruct (is_truthy t) eqn:E; [exact E|reflexivity].
Qed.

(** What was stored under [k] is what [storage[k]] evaluates to. *)
Lemma storage_get_set (r : Realm) (st : gmap string slot) (k : string)
    (t : target) :
  fits k t -> storage_get r (storage_set st k t) k = Some t.
Proof.
  unfold storage_get, storage_set, fits.
  destruct t as [a|f| |p]; intros H.
  - destruct (String.eqb_spec k "__proto__"); [contradiction|].
    rewrite lookup_insert_eq. reflexivity.
  - destruct H as [-> H]. destruct (String.eqb_spec k "__proto__");
      [contradiction|].
    rewrite lookup_insert_eq. reflexivity.
  - subst k. reflexivity.
  - destruct (String.eqb_spec k "__proto__"); [contradiction|].
    rewrite lookup_insert_eq. reflexivity.
Qed.

Lemma storage_set_lookup_ne (st : gmap string slot) (k k' : string)
    (t : target) :
  k' <> k -> storage_set st k t !! k' = st !! k'.
Proof.
  intros H. unfold storage_set.
  destruct t; try reflexivity; apply lookup_insert_ne; congruence.
Qed.

Lemma storage_get_set_ne (r : Realm) (st : gmap string slot) (k k' : string)
    (t : target) :
  k' <> k -> storage_get r (storage_set st k t) k' = storage_get r st k'.
Proof.
  intros H. unfold storage_get.
  rewrite storage_set_lookup_ne by exact H. reflexivity.
Qed.

(** The lookup depends on the realm only through the properties of
    [Object.prototype]. *)
Lemma storage_get_realm (r r' : Realm) (st : gmap string slot) (k : string) :
  object_prototype r' = object_prototype r ->
  storage_get r' st k = storage_get r st k.
Proof.
  intros H. unfold storage_get, inherited. rewrite H. reflexivity.
Qed.

Lemma storage_set_twice (st : gmap string slot) (k : string) (a b : target) :
  same_object a b ->
  storage_set (storage_set st k a) k b = storage_set st k b.
Proof.
  destruct a, b; cbn; intros H; try contradiction; try reflexivity;
    apply insert_insert_eq.
Qed.

(** [accept] is [serve] on the object [storage[uniqueID]] evaluates to,
    stored back under the resolved key. *)
Lemma accept_serve (w : World) (count : JS.value) (uniqueID : option string)
    (rnd : string) (now : Z) :
  accept w count uniqueID rnd now =
  let k := resolve uniqueID rnd in
  let app := found_or_new (realm w) (storage (bucket w)) k in
  let s := serve (bucket w) (realm w) app count now in
  (fst s,
   mkWorld (fst (snd s))
     (set_storage (bucket w)
        (storage_set (storage (bucket w)) k (snd (snd s))))).
Proof.
  unfold accept, serve. cbv zeta.
  cbn [bucketSize set_storage storage].
  set (k := resolve uniqueID rnd).
  set (app := found_or_new (realm w) (storage (bucket w)) k).
  destruct (negb (JS.truthy (bucketSize (bucket w)))); [reflexivity|].
  destruct (JS.gt count (bucketSize (bucket w))); [reflexivity|].
  rewrite !drip_set_storage.
  pose proof (drip_same (bucket w) (realm w) app now) as Hd.
  destruct (JS.gt count _); cbn [fst snd].
  - rewrite storage_set_twice by exact Hd. reflexivity.
  - rewrite storage_set_twice by exact Hd.
    rewrite storage_set_twice by apply write_content_same. reflexivity.
Qed.

(** The policy fields are never written. *)
Lemma accept_policy (w : World) (count : JS.value) (uniqueID : option string)
    (rnd : string) (now : Z) :
  let w' := snd (accept w count uniqueID rnd now) in
  bucketSize (bucket w') = bucketSize (bucket w)
  /\ tokensPerInterval (bucket w') = tokensPerInterval (bucket w)
  /\ interval (bucket w') = interval (bucket w).
Proof. rewrite accept_serve. cbn. auto. Qed.

(** After a call the resolved key leads to the object the call served. *)
Lemma accept_account (w : World) (count : JS.value) (uniqueID : option string)
    (rnd : string) (now : Z) :
  let k := resolve uniqueID rnd in
  let app := found_or_new (realm w) (storage (bucket w)) k in
  let s := serve (bucket w) (realm w) app count now in
  account_of (snd (accept w count uniqueID rnd now)) k = Some (snd (snd s)).
Proof.
  cbv zeta. rewrite accept_serve. cbv zeta. cbn [snd].
  unfold account_of. cbn [realm bucket set_storage storage].
  set (k := resolve uniqueID rnd).
  set (app := found_or_new (realm w) (storage (bucket w)) k).
  pose proof (serve_same (bucket w) (realm w) app count now) as Hs.
  rewrite storage_get_set.
  - rewrite (is_truthy_same _ _ Hs). unfold app.
    rewrite found_or_new_truthy. reflexivity.
  - eapply fits_same; [exact Hs|]. apply found_or_new_fits.
Qed.

End Storage.

(** ** Accounts before and after a call *)

Section Accounts.

Lemma account_of_found (w : World) (k : string) (t : target) :
  account_of w k = Some t ->
  found_or_new (realm w) (storage (bucket w)) k = t.
Proof.
  unfold account_of, found_or_new.
  destruct (storage_get _ _ k) as [t'|]; [|discriminate].
  destruct (is_truthy t'); [|discriminate]. congruence.
Qed.

Lemma account_of_none (w : World) (k : string) :
  account_of w k = None ->
  found_or_new (realm w) (storage (bucket w)) k = TAccount new_app.
Proof.
  unfold account_of, found_or_new.
  destruct (storage_get _ _ k) as [t'|]; [|reflexivity].
  destruct (is_truthy t'); [discriminate|reflexivity].
Qed.

(** A call that ends before the refill: the realm is untouched, the
    resolved key leads to what it led to (or to the new literal), and
    every other key to what it led to. *)
Lemma early_return (w : World) (k : string) :
  let w' := mkWorld (realm w)
              (set_storage (bucket w)
                 (storage_set (storage (bucket w)) k
                    (found_or_new (realm w) (storage (bucket w)) k))) in
  account_of w' k = Some (found_or_new (realm w) (storage (bucket w)) k)
  /\ (forall k' t, account_of w k' = Some t -> account_of w' k' = Some t)
  /\ (forall k', k' <> k -> account_of w' k' = account_of w k').
Proof.
  cbv zeta.
  assert (Hk : account_of
                 (mkWorld (realm w)
                    (set_storage (bucket w)
                       (storage_set (storage (bucket w)) k
                          (found_or_new (realm w) (storage (bucket w)) k)))) k
               = Some (found_or_new (realm w) (storage (bucket w)) k)).
  { unfold account_of. cbn [realm bucket set_storage storage].
    rewrite storage_get_set by apply found_or_new_fits.
    rewrite found_or_new_truthy. reflexivity. }
  assert (Hne : forall k', k' <> k ->
            account_of
              (mkWorld (realm w)
                 (set_storage (bucket w)
                    (storage_set (storage (bucket w)) k
                       (found_or_new (realm w) (storage (bucket w)) k)))) k'
            = account_of w k').
  { intros k' Hk'. unfold account_of. cbn [realm bucket set_storage storage].
    rewrite storage_get_set_ne by exact Hk'. reflexivity. }
  split; [exact Hk|]. split; [|exact Hne].
  intros k' t Ht. destruct (decide (k' = k)) as [->|Hk'].
  - rewrite Hk. f_equal. apply account_of_found. exact Ht.
  - rewrite Hne by exact Hk'. exact Ht.
Qed.

End Accounts.

(** ** Construction *)

(** Outside the recognised names no [case] of the [switch] matches. *)
Lemma unrecognized_interval_none (s : string) :
  ~ In s recognized -> interval_of_string s = None.
Proof.
  intros Hs. unfold interval_of_string.
  repeat match goal with
  | |- context [String.eqb s ?t] =>
      destruct (String.eqb_spec s t) as [->|_];
      [exfalso; apply Hs; simpl; tauto|]
  end.
  reflexivity.
Qed.

(** C2, as stated, fails: an unrecognised string does not make the
    interval read as a falsy value.  For ["week"] the refill computation
    reads a truthy interval. *)
Lemma unrecognized_interval_not_falsy :
  ~ (forall (b r : JS.value) (s : string) (now : Z),
        ~ In s recognized ->
        JS.truthy (get_interval (new_TokenBucket b r (IString s) now)) = false).
Proof.
  intros H.
  specialize (H (JS.Num 10) (JS.Num 1) "week"%string 0%Z).
  assert (Hn : ~ In "week"%string recognized).
  { simpl. intros Hin. repeat destruct Hin as [Hin|Hin]; try discriminate.
    exact Hin. }
  specialize (H Hn). vm_compute in H. discriminate.
Qed.

(** C2, amended: for an interval argument that is a string outside the
    recognised set the constructor assigns no [interval] to the instance,
    and the refill computation reads the prototype's [interval], 1000. *)
Theorem unrecognized_interval_reads_prototype
    (b r : JS.value) (s : string) (now : Z) :
  ~ In s recognized ->
  interval (new_TokenBucket b r (IString s) now) = None
  /\ get_interval (new_TokenBucket b r (IString s) now) = JS.Num 1000
  /\ JS.truthy (get_interval (new_TokenBucket b r (IString s) now)) = true.
Proof.
  intros Hs. pose proof (unrecognized_interval_none s Hs) as Hnone.
  unfold get_interval. cbn [new_TokenBucket interval]. rewrite Hnone.
  repeat split.
Qed.

Lemma unrecognized_interval_reads_prototype_witness :
  ~ In "week"%string recognized
  /\ get_interval
       (new_TokenBucket (JS.Num 10) (JS.Num 1) (IString "week") 0)
     = JS.Num 1000.
Proof.
  assert (Hn : ~ In "week"%string recognized).
  { simpl. intros Hin. repeat destruct Hin as [Hin|Hin]; try discriminate.
    exact Hin. }
  split; [exact Hn|].
  exact (proj1 (proj2 (unrecognized_interval_reads_prototype
                         (JS.Num 10) (JS.Num 1) "week" 0 Hn))).
Defined.

(** ** Admission without accounting *)

(** C3: with a falsy [bucketSize], [accept] answers [true] whatever the
    count and the identity, and writes no level and no timestamp: the
    realm is untouched, every account keeps its level and its timestamp,
    and the identity of the call leads to the object it led to, or to the
    new literal when it led to none. *)
Theorem accept_unlimited (w : World) (count : JS.value)
    (uniqueID : option string) (rnd : string) (now : Z) :
  JS.truthy (bucketSize (bucket w)) = false ->
  let w' := snd (accept w count uniqueID rnd now) in
  let k := resolve uniqueID rnd in
  fst (accept w count uniqueID rnd now) = true
  /\ realm w' = realm w
  /\ (forall k' t, account_of w k' = Some t -> account_of w' k' = Some t)
  /\ (forall k' v, level w k' = Some v -> level w' k' = Some v)
  /\ (forall k' t, last_refill w k' = Some t -> last_refill w' k' = Some t)
  /\ account_of w' k = Some (found_or_new (realm w) (storage (bucket w)) k).
Proof.
  intros Hcap. cbv zeta. rewrite accept_serve. cbv zeta. unfold serve.
  rewrite Hcap. cbn [negb fst snd].
  destruct (early_return w (resolve uniqueID rnd)) as (Hk & Hkeep & _).
  split; [reflexivity|]. split; [reflexivity|]. split; [exact Hkeep|].
  split; [|split; [|exact Hk]].
  - intros k' v. unfold level.
    destruct (account_of w k') as [t|] eqn:Et; [|discriminate].
    rewrite (Hkeep k' t Et). auto.
  - intros k' z. unfold last_refill.
    destruct (account_of w k') as [t|] eqn:Et; [|discriminate].
    rewrite (Hkeep k' t Et). auto.
Qed.

Lemma accept_unlimited_witness :
  fst (accept (new_world JS.Undefined (JS.Num 1) (IString "sec") 0)
         (JS.Num neg_infinity) (Some "a"%string) "r" 7) = true.
Proof.
  exact (proj1 (accept_unlimited
                  (new_world JS.Undefined (JS.Num 1) (IString "sec") 0)
                  (JS.Num neg_infinity) (Some "a"%string) "r" 7 eq_refl)).
Defined.

(** C4: with a truthy [bucketSize], a count above it is refused for every
    identity, in every account state and at every clock reading, and the
    refusal comes before the refill: the realm is untouched, every account
    keeps its level and its timestamp, and the outcome does not depend on
    the clock. *)
Theorem accept_oversized (w : World) (count : JS.value)
    (uniqueID : option string) (rnd : string) (now : Z) :
  JS.truthy (bucketSize (bucket w)) = true ->
  JS.gt count (bucketSize (bucket w)) = true ->
  let w' := snd (accept w count uniqueID rnd now) in
  let k := resolve uniqueID rnd in
  fst (accept w count uniqueID rnd now) = false
  /\ realm w' = realm w
  /\ (forall k' v, level w k' = Some v -> level w' k' = Some v)
  /\ (forall k' t, last_refill w k' = Some t -> last_refill w' k' = Some t)
  /\ account_of w' k = Some (found_or_new (realm w) (storage (bucket w)) k)
  /\ forall now', accept w count uniqueID rnd now'
                  = accept w count uniqueID rnd now.
Proof.
  intros Hcap Hgt. cbv zeta. rewrite !accept_serve. cbv zeta. unfold serve.
  rewrite Hcap, Hgt. cbn [negb fst snd].
  destruct (early_return w (resolve uniqueID rnd)) as (Hk & Hkeep & _).
  split; [reflexivity|]. split; [reflexivity|].
  split; [|split; [|split; [exact Hk|]]].
  - intros k' v. unfold level.
    destruct (account_of w k') as [t|] eqn:Et; [|discriminate].
    rewrite (Hkeep k' t Et). auto.
  - intros k' z. unfold last_refill.
    destruct (account_of w k') as [t|] eqn:Et; [|discriminate].
    rewrite (Hkeep k' t Et). auto.
  - intros now'. rewrite accept_serve. cbv zeta. unfold serve.
    rewrite Hcap, Hgt. reflexivity.
Qed.

Lemma accept_oversized_witness :
  fst (accept (new_world (JS.Num 5) (JS.Num 5) (IString "second") 0)
         (JS.Num 6) (Some "u1"%string) "r" 1000000) = false.
Proof.
  exact (proj1 (accept_oversized
                  (new_world (JS.Num 5) (JS.Num 5) (IString "second") 0)
                  (JS.Num 6) (Some "u1"%string) "r" 1000000 eq_refl eq_refl)).
Defined.

(** ** The timestamp of the last refill *)

Lemma nondecreasing_lower_head (x y : Z) (l : list Z) :
  x <= y -> nondecreasing (y :: l) -> nondecreasing (x :: l).
Proof.
  intros Hxy [Hy Hl]. split; [|exact Hl].
  destruct l as [|z l]; [exact I|]. lia.
Qed.

Lemma nondecreasing_tail (x : Z) (l : list Z) :
  nondecreasing (x :: l) -> nondecreasing l.
Proof. intros [_ H]. exact H. Qed.

(** The refill either keeps the timestamp or sets it to the reading. *)
Lemma drip_lastDrip (self : TokenBucket) (r : Realm) (t : target) (now : Z) :
  let d := drip self r t now in
  read_lastDrip (fst d) (snd d) = Some now
  \/ read_lastDrip (fst d) (snd d) = read_lastDrip r t.
Proof.
  cbv zeta. unfold drip.
  destruct (negb (JS.truthy (tokensPerInterval self))).
  - right. apply read_lastDrip_write_content.
  - cbv zeta. rewrite read_lastDrip_write_content.
    destruct (is_primitive t) eqn:Hp.
    + right. rewrite write_lastDrip_primitive by exact Hp. reflexivity.
    + left. apply read_lastDrip_write_lastDrip. exact Hp.
Qed.

Lemma serve_lastDrip (self : TokenBucket) (r : Realm) (t : target)
    (count : JS.value) (now : Z) :
  let s := serve self r t count now in
  read_lastDrip (fst (snd s)) (snd (snd s)) = Some now
  \/ read_lastDrip (fst (snd s)) (snd (snd s)) = read_lastDrip r t.
Proof.
  cbv zeta. unfold serve.
  destruct (negb (JS.truthy (bucketSize self))); [right; reflexivity|].
  destruct (JS.gt count (bucketSize self)); [right; reflexivity|].
  cbv zeta. destruct (JS.gt count _); cbn [fst snd].
  - apply drip_lastDrip.
  - rewrite read_lastDrip_write_content. apply drip_lastDrip.
Qed.

(** After a call the timestamp of its account is the reading, or the
    former one, or 0 for an account the call created. *)
Lemma accept_last_refill (w : World) (count : JS.value)
    (uniqueID : option string) (rnd : string) (now : Z) :
  let k := resolve uniqueID rnd in
  let w' := snd (accept w count uniqueID rnd now) in
  last_refill w' k = Some now
  \/ last_refill w' k = last_refill w k
  \/ (last_refill w k = None /\ last_refill w' k = Some 0).
Proof.
  cbv zeta. set (k := resolve uniqueID rnd).
  set (app := found_or_new (realm w) (storage (bucket w)) k).
  assert (Hw' : last_refill (snd (accept w count uniqueID rnd now)) k
                = read_lastDrip
                    (fst (snd (serve (bucket w) (realm w) app count now)))
                    (snd (snd (serve (bucket w) (realm w) app count now)))).
  { unfold last_refill. unfold k. rewrite accept_account.
    rewrite accept_serve. reflexivity. }
  rewrite Hw'.
  destruct (serve_lastDrip (bucket w) (realm w) app count now)
    as [H|H]; [left; exact H|].
  right. rewrite H. unfold last_refill, app.
  destruct (account_of w k) as [t|] eqn:Et.
  - left. rewrite (account_of_found w k t Et). reflexivity.
  - right. rewrite (account_of_none w k Et). split; reflexivity.
Qed.

Lemma refill_times_bounded (id : string) (cs : list call) :
  id <> ""%string ->
  Forall (fun cl => call_uniqueID cl = Some id) cs ->
  forall w : World,
    nondecreasing (default 0 (last_refill w id) :: map call_now cs) ->
    nondecreasing
      (default 0 (last_refill w id)
       :: omap (fun s => last_refill s id) (states w cs)).
Proof.
  intros Hid Hcs. induction Hcs as [|cl cs Hcl _ IH]; intros w Hnd.
  - cbn. auto.
  - cbn [states omap list_omap].
    pose proof (accept_last_refill w (call_count cl) (Some id) (call_rnd cl)
                  (call_now cl)) as Hcase.
    cbv zeta in Hcase. rewrite (resolve_explicit id _ Hid) in Hcase.
    assert (Hstep : step w cl
                    = snd (accept w (call_count cl) (Some id) (call_rnd cl)
                             (call_now cl))).
    { unfold step. rewrite Hcl. reflexivity. }
    rewrite <- Hstep in Hcase.
    cbn [map] in Hnd. destruct Hnd as [Hle Hnd].
    specialize (IH (step w cl)).
    destruct (last_refill (step w cl) id) as [t|] eqn:Et.
    + change (default 0 (Some t)) with t in IH.
      assert (Ht1 : default 0 (last_refill w id) <= t <= call_now cl).
      { destruct Hcase as [H|[H|[H1 H2]]].
        - injection H as ->. lia.
        - rewrite <- H in Hle |- *. cbn in Hle |- *. lia.
        - injection H2 as ->. rewrite H1. cbn. rewrite H1 in Hle. cbn in Hle.
          lia. }
      split; [lia|].
      apply IH. apply (nondecreasing_lower_head _ (call_now cl)); [lia|].
      exact Hnd.
    + assert (Hb : last_refill w id = None).
      { destruct Hcase as [H|[H|[_ H]]]; try discriminate. congruence. }
      rewrite Hb in *. cbn [default from_option] in *.
      apply IH. apply (nondecreasing_lower_head _ (call_now cl)); [lia|].
      exact Hnd.
Qed.

(** C7, as stated, fails: the timestamp follows the clock, backwards too.
    After calls at readings 100 and then 50 the timestamps are 100
    and 50. *)
Lemma last_refill_follows_clock_backwards :
  ~ (forall (w : World) (id : string) (cs : list call),
        id <> ""%string ->
        Forall (fun cl => call_uniqueID cl = Some id) cs ->
        nondecreasing (refill_times id w cs)).
Proof.
  intros H.
  specialize (H (new_world (JS.Num 10) (JS.Num 1) (IValue (JS.Num 1000)) 0)
                "a"%string
                [mkCall (JS.Num 1) (Some "a"%string) "r" 100;
                 mkCall (JS.Num 1) (Some "a"%string) "r" 50]).
  assert (Hn : nondecreasing [100; 50]).
  { apply H; [discriminate | repeat constructor]. }
  cbn in Hn. lia.
Qed.

(** C7, amended: along a sequence of calls on one identity whose clock
    readings never go down, starting at or after the account's current
    timestamp (0 for an account not yet created), the account's timestamp
    never goes down. *)
Theorem last_refill_nondecreasing (w : World) (id : string)
    (cs : list call) :
  id <> ""%string ->
  Forall (fun cl => call_uniqueID cl = Some id) cs ->
  nondecreasing (default 0 (last_refill w id) :: map call_now cs) ->
  nondecreasing (refill_times id w cs).
Proof.
  intros Hid Hcs Hnd.
  pose proof (refill_times_bounded id cs Hid Hcs w Hnd) as H.
  unfold refill_times. cbn [omap list_omap].
  destruct (last_refill w id) as [t|].
  - exact H.
  - apply nondecreasing_tail in H. exact H.
Qed.

Lemma last_refill_nondecreasing_witness :
  nondecreasing (refill_times "u1" pool5 scenario).
Proof.
  apply last_refill_nondecreasing.
  - discriminate.
  - repeat constructor.
  - vm_compute. intuition discriminate.
Defined.

(** ** One identity and the others *)

Section Isolation.

(** What an object reads depends on the realm only through the
    properties of [Object.prototype] and, for a method, its own. *)
Lemma read_content_frame (r r' : Realm) (t : target) :
  object_prototype r' = object_prototype r ->
  (forall f, t = TBuiltin f -> fn_bag r' f = fn_bag r f) ->
  read_content r' t = read_content r t.
Proof.
  intros Hp Hf. destruct t as [a|f| |p]; cbn; rewrite ?Hp; try reflexivity.
  rewrite (Hf f eq_refl). reflexivity.
Qed.

Lemma read_lastDrip_frame (r r' : Realm) (t : target) :
  object_prototype r' = object_prototype r ->
  (forall f, t = TBuiltin f -> fn_bag r' f = fn_bag r f) ->
  read_lastDrip r' t = read_lastDrip r t.
Proof.
  intros Hp Hf. destruct t as [a|f| |p]; cbn; rewrite ?Hp; try reflexivity.
  rewrite (Hf f eq_refl). reflexivity.
Qed.

Lemma account_of_fits (w : World) (k : string) (t : target) :
  account_of w k = Some t -> fits k t.
Proof.
  unfold account_of. destruct (storage_get _ _ k) as [t'|] eqn:E; [|discriminate].
  destruct (is_truthy t'); [|discriminate]. intros [= <-].
  eapply storage_get_fits. exact E.
Qed.

(** A call on an identity other than [__proto__] leaves every other
    identity with the object, the level and the timestamp it had. *)
Lemma accept_elsewhere (w : World) (count : JS.value)
    (uniqueID : option string) (rnd : string) (now : Z) (B : string) :
  resolve uniqueID rnd <> "__proto__"%string ->
  resolve uniqueID rnd <> B ->
  let w' := snd (accept w count uniqueID rnd now) in
  account_of w' B = account_of w B
  /\ level w' B = level w B
  /\ last_refill w' B = last_refill w B.
Proof.
  intros Hproto Hne. cbv zeta. rewrite accept_serve. cbv zeta. cbn [snd].
  set (k := resolve uniqueID rnd) in *.
  set (app := found_or_new (realm w) (storage (bucket w)) k).
  set (s := serve (bucket w) (realm w) app count now).
  assert (Happ : app <> TObjectPrototype).
  { intros E. pose proof (found_or_new_fits (realm w) (storage (bucket w)) k)
      as Hf. fold app in Hf. rewrite E in Hf. cbn in Hf. contradiction. }
  assert (HappB : app <> TBuiltin B).
  { intros E. pose proof (found_or_new_fits (realm w) (storage (bucket w)) k)
      as Hf. fold app in Hf. rewrite E in Hf. cbn in Hf. destruct Hf as [Hf _].
    congruence. }
  assert (Hp : object_prototype (fst (snd s)) = object_prototype (realm w)).
  { apply serve_prototype. exact Happ. }
  assert (Hb : fn_bag (fst (snd s)) B = fn_bag (realm w) B).
  { apply serve_builtin. exact HappB. }
  assert (Hacc : account_of
                   (mkWorld (fst (snd s))
                      (set_storage (bucket w)
                         (storage_set (storage (bucket w)) k (snd (snd s))))) B
                 = account_of w B).
  { unfold account_of. cbn [realm bucket set_storage storage].
    rewrite storage_get_set_ne by congruence.
    rewrite (storage_get_realm (realm w)) by exact Hp. reflexivity. }
  split; [exact Hacc|].
  unfold level, last_refill. rewrite Hacc. cbn [realm].
  destruct (account_of w B) as [t|] eqn:Et; [|split; reflexivity].
  pose proof (account_of_fits w B t Et) as Hfit.
  assert (Hf : forall f, t = TBuiltin f ->
                         fn_bag (fst (snd s)) f = fn_bag (realm w) f).
  { intros f ->. cbn in Hfit. destruct Hfit as [-> _]. exact Hb. }
  cbn. rewrite (read_content_frame _ _ t Hp Hf).
  rewrite (read_lastDrip_frame _ _ t Hp Hf). split; reflexivity.
Qed.

End Isolation.

(** C9, at the failing input: on the pool of capacity 5 refilled at 5
    per second, once an oversized call has stored the inherited method
    under ["toString"], the call [accept(1, "__proto__")] at reading 500
    writes to [Object.prototype]; the account of ["toString"], which read
    no level and no timestamp, then reads [NaN] and 500. *)
Theorem proto_call_reaches_other_account :
  let w := run (new_world (JS.Num 5) (JS.Num 5) (IString "second") 0)
             [mkCall (JS.Num 6) (Some "toString"%string) "r" 5] in
  let w' := snd (accept w (JS.Num 1) (Some "__proto__"%string) "r" 500) in
  storage (bucket w) !! "toString"%string = Some SBuiltin
  /\ account_of w "__proto__" = Some TObjectPrototype
  /\ level w "toString" = Some JS.Undefined
  /\ last_refill w "toString" = None
  /\ level w' "toString" = Some (JS.Num nan)
  /\ last_refill w' "toString" = Some 500.
Proof. vm_compute. repeat split. Qed.

(** C10, at the failing input: on the same pool the oversized call
    [accept(6, "constructor")], for an identity the storage does not own,
    is refused and stores under that key the inherited method instead of
    a new record: the account reads no level and no timestamp. *)
Theorem oversized_call_stores_inherited_method :
  let w := new_world (JS.Num 5) (JS.Num 5) (IString "second") 0 in
  let w' := snd (accept w (JS.Num 6) (Some "constructor"%string) "r" 5) in
  storage (bucket w) !! "constructor"%string = None
  /\ fst (accept w (JS.Num 6) (Some "constructor"%string) "r" 5) = false
  /\ storage (bucket w') !! "constructor"%string = Some SBuiltin
  /\ storage (bucket w') !! "constructor"%string <> Some (SAccount new_app)
  /\ level w' "constructor" = Some JS.Undefined
  /\ last_refill w' "constructor" = None.
Proof. vm_compute. repeat split. discriminate. Qed.

(** X17: identities other than [__proto__] are isolated.  A call on an
    explicit identity [A] that is not [__proto__] leaves every other
    identity [B] with the object, the level and the timestamp it had,
    whatever the call answers. *)
Theorem accept_isolation (w : World) (count : JS.value)
    (A B rnd : string) (now : Z) :
  A <> ""%string ->
  A <> "__proto__"%string ->
  A <> B ->
  let w' := snd (accept w count (Some A) rnd now) in
  account_of w' B = account_of w B
  /\ level w' B = level w B
  /\ last_refill w' B = last_refill w B.
Proof.
  intros HA Hproto Hne.
  apply accept_elsewhere; rewrite resolve_explicit by exact HA; assumption.
Qed.

Lemma accept_isolation_witness :
  let w := run pool5 [mkCall (JS.Num 1) (Some "a"%string) "r" 5;
                      mkCall (JS.Num 1) (Some "toString"%string) "r" 6] in
  level (snd (accept w (JS.Num 2) (Some "a"%string) "r" 9)) "toString"
  = level w "toString".
Proof.
  intros w.
  refine (proj1 (proj2 (accept_isolation w (JS.Num 2) "a" "toString" "r" 9
                          _ _ _))); discriminate.
Defined.

(** X18: a count above a truthy [bucketSize] is refused without a refill
    and without any write to the realm.  When the identity led to nothing,
    stored or inherited, the storage gains the new literal
    [{lastDrip: 0, content: 0}] under it and nothing else; when the
    storage owned a record under it, the world is left exactly as it
    was. *)
Theorem accept_oversized_frame (w : World) (count : JS.value)
    (uniqueID : option string) (rnd : string) (now : Z) :
  JS.truthy (bucketSize (bucket w)) = true ->
  JS.gt count (bucketSize (bucket w)) = true ->
  let k := resolve uniqueID rnd in
  let w' := snd (accept w count uniqueID rnd now) in
  realm w' = realm w
  /\ (storage_get (realm w) (storage (bucket w)) k = None ->
      storage (bucket w') = <[k := SAccount new_app]> (storage (bucket w)))
  /\ (forall a, k <> "__proto__"%string ->
                storage (bucket w) !! k = Some (SAccount a) -> w' = w)
  /\ (forall k', k' <> k ->
                 storage (bucket w') !! k' = storage (bucket w) !! k').
Proof.
  intros Hcap Hgt. cbv zeta. rewrite accept_serve. cbv zeta. unfold serve.
  rewrite Hcap, Hgt. cbn [negb fst snd realm bucket set_storage storage].
  split; [reflexivity|]. split; [|split].
  - intros Hnone. unfold found_or_new. rewrite Hnone. reflexivity.
  - intros a Hk Hown. unfold found_or_new, storage_get.
    destruct (String.eqb_spec (resolve uniqueID rnd) "__proto__");
      [contradiction|].
    rewrite Hown. cbn. rewrite insert_id by exact Hown.
    destruct w as [r [b t i c l st]]. reflexivity.
  - intros k' Hk'. apply storage_set_lookup_ne. exact Hk'.
Qed.

Lemma accept_oversized_frame_witness :
  storage (bucket (snd (accept
                     (new_world (JS.Num 5) (JS.Num 5) (IString "second") 0)
                     (JS.Num 6) (Some "u1"%string) "r" 1000000)))
  = <[ "u1"%string := SAccount new_app ]> ∅.
Proof.
  exact (proj1 (proj2 (accept_oversized_frame
    (new_world (JS.Num 5) (JS.Num 5) (IString "second") 0)
    (JS.Num 6) (Some "u1"%string) "r" 1000000 eq_refl eq_refl)) eq_refl).
Defined.

(** ** What the storage goes through *)

Lemma step_storage (w : World) (c : call) :
  storage (bucket (step w c)) = storage (bucket w)
  \/ exists s,
       storage (bucket (step w c))
       = <[resolve (call_uniqueID c) (call_rnd c) := s]> (storage (bucket w)).
Proof.
  unfold step. rewrite accept_serve. cbv zeta.
  cbn [snd bucket set_storage storage]. unfold storage_set.
  destruct (snd (snd _)); eauto.
Qed.

(** X4: every call, whatever it answers, leaves the resolved key leading
    to an object; the storage then owns that key, unless it is
    [__proto__], and no other new key.  Along a sequence of calls no key
    is ever removed, and the storage grows by at most one key per
    call. *)
Theorem storage_only_grows (w : World) (cs : list call) :
  (forall (count : JS.value) (uniqueID : option string) (rnd : string)
          (now : Z),
      let k := resolve uniqueID rnd in
      let w' := snd (accept w count uniqueID rnd now) in
      is_Some (account_of w' k)
      /\ dom (storage (bucket w'))
         = (if String.eqb k "__proto__" then ∅ else {[k]})
           ∪ dom (storage (bucket w)))
  /\ dom (storage (bucket w)) ⊆ dom (storage (bucket (run w cs)))
  /\ (size (storage (bucket (run w cs)))
      <= size (storage (bucket w)) + length cs)%nat.
Proof.
  split.
  { intros count uniqueID rnd now. cbv zeta. split.
    - rewrite accept_account. eexists. reflexivity.
    - rewrite accept_serve. cbv zeta. cbn [snd bucket set_storage storage].
      set (k := resolve uniqueID rnd).
      pose proof (serve_same (bucket w) (realm w)
                    (found_or_new (realm w) (storage (bucket w)) k) count now)
        as Hs.
      pose proof (fits_same k _ _ Hs
                    (found_or_new_fits (realm w) (storage (bucket w)) k))
        as Hf.
      unfold storage_set.
      destruct (snd (snd _)) as [a|f| |p]; cbn in Hf.
      + destruct (String.eqb_spec k "__proto__"); [contradiction|].
        apply dom_insert_L.
      + destruct Hf as [_ Hf].
        destruct (String.eqb_spec k "__proto__"); [contradiction|].
        apply dom_insert_L.
      + destruct (String.eqb_spec k "__proto__"); [|contradiction].
        symmetry. apply (left_id_L ∅ (∪)).
      + destruct (String.eqb_spec k "__proto__"); [contradiction|].
        apply dom_insert_L. }
  revert w. induction cs as [|c cs IH]; intros w.
  - cbn. split; [reflexivity | lia].
  - cbn [run fold_left]. fold (run (step w c) cs).
    destruct (IH (step w c)) as (Hdom & Hsize).
    destruct (step_storage w c) as [Hst|(s & Hst)].
    + rewrite Hst in *. split; [exact Hdom|]. cbn [length]. lia.
    + split.
      * etransitivity; [|exact Hdom]. rewrite Hst. apply dom_insert_subseteq.
      * rewrite Hst in Hsize. rewrite map_size_insert in Hsize. cbn [length].
        destruct (storage (bucket w) !! resolve (call_uniqueID c) (call_rnd c));
          cbn in Hsize; lia.
Qed.

(** ** The interval names *)

(** X14: the constructor assigns an interval to the instance exactly for
    the recognised names, and then it is, in milliseconds, 1000 for
    ["sec"] and ["second"], 60000 for ["min"] and ["minute"], 3600000 for
    ["hr"] and ["hour"], and 86400000 for ["day"]. *)
Theorem interval_names (b r : JS.value) (now : Z) (s : string) :
  (In s recognized <->
   is_Some (interval (new_TokenBucket b r (IString s) now)))
  /\ (In s recognized ->
      JS.eqb (get_interval (new_TokenBucket b r (IString s) now))
        (JS.Num (JS.of_Z
           (if decide (s = "sec" \/ s = "second")%string then 1000
            else if decide (s = "min" \/ s = "minute")%string then 60000
            else if decide (s = "hr" \/ s = "hour")%string then 3600000
            else 86400000))) = true).
Proof.
  split.
  - split.
    + intros Hin. cbn in Hin.
      repeat destruct Hin as [<-|Hin]; try contradiction;
        cbn; eexists; reflexivity.
    + intros Hsome.
      destruct (In_dec String.string_dec s recognized) as [Hin|Hout];
        [exact Hin|].
      pose proof (unrecognized_interval_none s Hout) as E.
      cbn [new_TokenBucket interval] in Hsome. rewrite E in Hsome.
      destruct Hsome as [x Hx]. discriminate.
  - intros Hin. cbn in Hin.
    repeat destruct Hin as [<-|Hin]; try contradiction;
      vm_compute; reflexivity.
Qed.

Lemma interval_names_witness :
  JS.eqb (get_interval (new_TokenBucket (JS.Num 1) (JS.Num 1) (IString "hr") 0))
         (JS.Num (JS.of_Z 3600000)) = true.
Proof.
  refine (proj2 (interval_names (JS.Num 1) (JS.Num 1) 0 "hr") _).
  cbn. tauto.
Defined.

(** ** The operations on values, as specified *)

Section Values.

Lemma SFof_Num (f : float) : SFof (JS.Num f) = Prim2SF f.
Proof. reflexivity. Qed.

Lemma SFof_add (a b : JS.value) :
  SFof (JS.add a b) = SF64add (SFof a) (SFof b).
Proof. apply add_spec. Qed.

Lemma SFof_sub (a b : JS.value) :
  SFof (JS.sub a b) = SF64sub (SFof a) (SFof b).
Proof. apply sub_spec. Qed.

Lemma SFof_mul (a b : JS.value) :
  SFof (JS.mul a b) = SF64mul (SFof a) (SFof b).
Proof. apply mul_spec. Qed.

Lemma SFof_div (a b : JS.value) :
  SFof (JS.div a b) = SF64div (SFof a) (SFof b).
Proof. apply div_spec. Qed.

Lemma SFof_math_min (a b : JS.value) :
  SFof (JS.math_min a b) = SFmin (SFof a) (SFof b).
Proof. apply fmin_SF. Qed.

Lemma SFof_math_max (a b : JS.value) :
  SFof (JS.math_max a b) = SFmax (SFof a) (SFof b).
Proof. apply fmax_SF. Qed.

Lemma gt_SF (a b : JS.value) : JS.gt a b = SFltb (SFof b) (SFof a).
Proof. apply FloatAxioms.ltb_spec. Qed.

Lemma le_SF (a b : JS.value) : JS.le a b = SFleb (SFof a) (SFof b).
Proof. apply FloatAxioms.leb_spec. Qed.

Lemma eqb_SF (a b : JS.value) : JS.eqb a b = SFeqb (SFof a) (SFof b).
Proof. apply FloatAxioms.eqb_spec. Qed.

Lemma truthy_SF (v : JS.value) :
  JS.truthy v = match SFof v with
                | S754_nan | S754_zero _ => false
                | _ => true
                end.
Proof.
  destruct v as [|f]; [reflexivity|].
  unfold JS.truthy, SFof. cbn [JS.to_number].
  rewrite is_nan_SF, is_zero_SF. destruct (Prim2SF f); reflexivity.
Qed.

(** A value that converts to [NaN] is [NaN] as a number. *)
Lemma SFof_nan (v : JS.value) :
  SFof v = S754_nan -> JS.to_number v = nan.
Proof. intros H. apply Prim2SF_inj. exact H. Qed.

Lemma Num_nan (f : float) : Prim2SF f = S754_nan -> JS.Num f = JS.Num nan.
Proof. intros H. f_equal. apply Prim2SF_inj. exact H. Qed.

Lemma is_nan_to_number (v : JS.value) :
  is_nan (JS.to_number v) = true <-> SFof v = S754_nan.
Proof.
  rewrite is_nan_SF. unfold SFof.
  destruct (Prim2SF (JS.to_number v)); split; intros H; congruence.
Qed.

(** [NaN] goes through every operation and fails every comparison. *)
Lemma SF64add_nan_l y : SF64add S754_nan y = S754_nan.
Proof. reflexivity. Qed.
Lemma SF64add_nan_r x : SF64add x S754_nan = S754_nan.
Proof. destruct x; reflexivity. Qed.
Lemma SF64sub_nan_l y : SF64sub S754_nan y = S754_nan.
Proof. reflexivity. Qed.
Lemma SF64sub_nan_r x : SF64sub x S754_nan = S754_nan.
Proof. destruct x; reflexivity. Qed.
Lemma SF64mul_nan_l y : SF64mul S754_nan y = S754_nan.
Proof. reflexivity. Qed.
Lemma SF64mul_nan_r x : SF64mul x S754_nan = S754_nan.
Proof. destruct x; reflexivity. Qed.
Lemma SF64div_nan_l y : SF64div S754_nan y = S754_nan.
Proof. reflexivity. Qed.
Lemma SF64div_nan_r x : SF64div x S754_nan = S754_nan.
Proof. destruct x; reflexivity. Qed.
Lemma SFmin_nan_l y : SFmin S754_nan y = S754_nan.
Proof. reflexivity. Qed.
Lemma SFmin_nan_r x : SFmin x S754_nan = S754_nan.
Proof. destruct x; reflexivity. Qed.
Lemma SFmax_nan_l y : SFmax S754_nan y = S754_nan.
Proof. reflexivity. Qed.
Lemma SFmax_nan_r x : SFmax x S754_nan = S754_nan.
Proof. destruct x; reflexivity. Qed.
Lemma SFltb_nan_l y : SFltb S754_nan y = false.
Proof. reflexivity. Qed.
Lemma SFltb_nan_r x : SFltb x S754_nan = false.
Proof. destruct x; reflexivity. Qed.

Lemma gt_nan_l (a b : JS.value) : SFof a = S754_nan -> JS.gt a b = false.
Proof. intros H. rewrite gt_SF, H. apply SFltb_nan_r. Qed.

Lemma gt_nan_r (a b : JS.value) : SFof b = S754_nan -> JS.gt a b = false.
Proof. intros H. rewrite gt_SF, H. apply SFltb_nan_l. Qed.

End Values.

(** ** The refill and the decision, object by object *)

Section Decision.

(** On anything but a number the refill reads back as assigned. *)
Lemma drip_object (self : TokenBucket) (r : Realm) (t : target) (now : Z) :
  is_primitive t = false ->
  let d := drip self r t now in
  read_content (fst d) (snd d)
  = (if JS.truthy (tokensPerInterval self)
     then refilled self (read_content r t) (deltaMS r t now)
     else bucketSize self)
  /\ read_lastDrip (fst d) (snd d)
     = (if JS.truthy (tokensPerInterval self) then Some now
        else read_lastDrip r t).
Proof.
  intros Hp. cbv zeta. unfold drip.
  destruct (JS.truthy (tokensPerInterval self)); cbn [negb].
  - cbv zeta.
    assert (Hp' : is_primitive (snd (write_lastDrip r t now)) = false).
    { rewrite (is_primitive_same _ _ (write_lastDrip_same r t now)).
      exact Hp. }
    rewrite read_content_write_content by exact Hp'.
    rewrite read_lastDrip_write_content.
    rewrite read_content_write_lastDrip.
    rewrite read_lastDrip_write_lastDrip by exact Hp. split; reflexivity.
  - rewrite read_content_write_content by exact Hp.
    rewrite read_lastDrip_write_content. split; reflexivity.
Qed.

Lemma drip_is_primitive (self : TokenBucket) (r : Realm) (t : target)
    (now : Z) :
  is_primitive (snd (drip self r t now)) = is_primitive t.
Proof. apply is_primitive_same. apply drip_same. Qed.

(** The level the refill assigns. *)
Lemma serve_object (self : TokenBucket) (r : Realm) (t : target)
    (count : JS.value) (now : Z) (L : JS.value) :
  is_primitive t = false ->
  JS.truthy (bucketSize self) = true ->
  JS.gt count (bucketSize self) = false ->
  L = (if JS.truthy (tokensPerInterval self)
       then refilled self (read_content r t) (deltaMS r t now)
       else bucketSize self) ->
  let s := serve self r t count now in
  fst s = negb (JS.gt count L)
  /\ read_content (fst (snd s)) (snd (snd s))
     = (if JS.gt count L then L else JS.sub L count)
  /\ read_lastDrip (fst (snd s)) (snd (snd s))
     = (if JS.truthy (tokensPerInterval self) then Some now
        else read_lastDrip r t).
Proof.
  intros Hp Hcap Hfit HL. cbv zeta. unfold serve.
  rewrite Hcap, Hfit. cbn [negb]. cbv zeta.
  destruct (drip_object self r t now Hp) as (Hc & Hl).
  rewrite <- HL in Hc. rewrite Hc.
  destruct (JS.gt count L); cbn [fst snd negb].
  - auto.
  - rewrite read_content_write_content
      by (rewrite drip_is_primitive; exact Hp).
    rewrite read_lastDrip_write_content. auto.
Qed.

(** On a number nothing is written: the decision reads the level
    inherited from [Object.prototype]. *)
Lemma serve_primitive (self : TokenBucket) (r : Realm) (p : float)
    (count : JS.value) (now : Z) :
  JS.truthy (bucketSize self) = true ->
  JS.gt count (bucketSize self) = false ->
  serve self r (TPrimitive p) count now
  = (negb (JS.gt count (read_content r (TPrimitive p))), (r, TPrimitive p)).
Proof.
  intros Hcap Hfit. unfold serve. rewrite Hcap, Hfit. cbn [negb]. cbv zeta.
  rewrite drip_primitive. cbn [fst snd].
  destruct (JS.gt count (read_content r (TPrimitive p))); reflexivity.
Qed.

(** What a call leaves to be read under its key. *)
Lemma accept_level (w : World) (count : JS.value) (uniqueID : option string)
    (rnd : string) (now : Z) :
  let k := resolve uniqueID rnd in
  let s := serve (bucket w) (realm w)
             (found_or_new (realm w) (storage (bucket w)) k) count now in
  level (snd (accept w count uniqueID rnd now)) k
  = Some (read_content (fst (snd s)) (snd (snd s))).
Proof.
  cbv zeta. unfold level. rewrite accept_account. rewrite accept_serve.
  reflexivity.
Qed.

End Decision.

(** ** The refill *)

(** C5, as stated, fails on the arithmetic: it is not exact.  At one
    token per interval of 3, the refill of a new account at reading 1
    leaves a level that is a rational other than 1/3. *)
Lemma refill_not_exact :
  ~ (forall (self : TokenBucket) (a : App) (now : Z) (c r i l : Q),
        JS.truthy (tokensPerInterval self) = true ->
        JS.exact (JS.to_number (bucketSize self)) = Some c ->
        JS.exact (JS.to_number (tokensPerInterval self)) = Some r ->
        JS.exact (JS.to_number (get_interval self)) = Some i ->
        ~ (i == 0)%Q ->
        JS.exact (JS.to_number (content a)) = Some l ->
        exists q,
          JS.exact
            (JS.to_number
               (read_content (fst (drip self pristine (TAccount a) now))
                  (snd (drip self pristine (TAccount a) now)))) = Some q
          /\ (q == refill_spec c r i (lastDrip a) l now)%Q).
Proof.
  intros H.
  destruct (H (new_TokenBucket (JS.Num 10) (JS.Num 1) (IValue (JS.Num 3)) 0)
              new_app 1 _ _ _ _ eq_refl eq_refl eq_refl eq_refl
              ltac:(intros E; vm_compute in E; discriminate) eq_refl)
    as (q & Hq & He).
  vm_compute in Hq. injection Hq as <-.
  vm_compute in He. discriminate.
Qed.

(** The level that refill leaves, and the rational it stands for. *)
Example refill_third :
  let self := new_TokenBucket (JS.Num 10) (JS.Num 1) (IValue (JS.Num 3)) 0 in
  let d := drip self pristine (TAccount new_app) 1 in
  read_content (fst d) (snd d) = JS.Num 0x1.5555555555555p-2
  /\ JS.exact 0x1.5555555555555p-2
     = Some (6004799503160661 # 18014398509481984).
Proof. vm_compute. split; reflexivity. Qed.

(** Fractions of a token are kept from one refill to the next: at one
    token per second, calls for one token 400 ms apart are refused twice
    and then granted; what is left is close to 0.2, not 0.2. *)
Example fractions_accumulate :
  let w := new_world (JS.Num 10) (JS.Num 1) (IValue (JS.Num 1000)) 0 in
  let c t := mkCall (JS.Num 1) (Some "a"%string) "r" t in
  answers w [c 400; c 800; c 1200] = [false; false; true]
  /\ level (run w [c 400]) "a" = Some (JS.Num 0x1.999999999999ap-2)
  /\ level (run w [c 400; c 800; c 1200]) "a"
     = Some (JS.Num 0x1.99999999999a0p-3).
Proof. vm_compute. repeat split. Qed.

(** C5, amended: the refill, for an object that takes properties.  With a
    falsy [tokensPerInterval] the level becomes [bucketSize], whatever it
    was, and the timestamp stays.  Otherwise the timestamp becomes [now]
    and the level becomes
    [Math.min(level + Math.max(now - lastDrip, 0) * (rate / interval),
    bucketSize)], every operation being the one of IEEE 754 doubles, which
    rounds; the fractions of a token that result are kept, and the next
    refill adds to them. *)
Theorem drip_refill (self : TokenBucket) (r : Realm) (app : target)
    (now : Z) :
  is_primitive app = false ->
  let d := drip self r app now in
  (JS.truthy (tokensPerInterval self) = false ->
     read_content (fst d) (snd d) = bucketSize self
     /\ read_lastDrip (fst d) (snd d) = read_lastDrip r app)
  /\ (JS.truthy (tokensPerInterval self) = true ->
        read_lastDrip (fst d) (snd d) = Some now
        /\ read_content (fst d) (snd d)
           = JS.math_min
               (JS.add (read_content r app)
                  (JS.mul
                     (JS.math_max
                        (JS.sub (JS.Num (JS.of_Z now))
                           (time_value (read_lastDrip r app)))
                        (JS.Num 0))
                     (JS.div (tokensPerInterval self) (get_interval self))))
               (bucketSize self)
        /\ forall later : Z,
             let d2 := drip self (fst d) (snd d) later in
             read_content (fst d2) (snd d2)
             = JS.math_min
                 (JS.add (read_content (fst d) (snd d))
                    (JS.mul
                       (JS.math_max
                          (JS.sub (JS.Num (JS.of_Z later))
                             (JS.Num (JS.of_Z now)))
                          (JS.Num 0))
                       (JS.div (tokensPerInterval self) (get_interval self))))
                 (bucketSize self)).
Proof.
  intros Hp. cbv zeta.
  destruct (drip_object self r app now Hp) as (Hc & Hl).
  split.
  - intros Hrate. rewrite Hrate in Hc, Hl. split; assumption.
  - intros Hrate. rewrite Hrate in Hc, Hl. split; [exact Hl|].
    split; [exact Hc|].
    intros later.
    destruct (drip_object self (fst (drip self r app now))
                (snd (drip self r app now)) later) as (Hc2 & _).
    { rewrite drip_is_primitive. exact Hp. }
    rewrite Hrate in Hc2. rewrite Hc2. unfold refilled, deltaMS.
    rewrite Hl. reflexivity.
Qed.

Lemma drip_refill_witness :
  let self := new_TokenBucket (JS.Num 10) (JS.Num 1) (IValue (JS.Num 3)) 0 in
  let d := drip self pristine (TAccount new_app) 1 in
  read_lastDrip (fst d) (snd d) = Some 1.
Proof.
  intros self.
  exact (proj1 (proj2 (drip_refill self pristine (TAccount new_app) 1 eq_refl)
                  eq_refl)).
Defined.

(** ** Calls without an identity *)

Lemma serve_set_storage (self : TokenBucket) (st : gmap string slot)
    (r : Realm) (t : target) (count : JS.value) (now : Z) :
  serve (set_storage self st) r t count now = serve self r t count now.
Proof. reflexivity. Qed.

(** X2: a call without an identity (absent or empty) whose generated key
    the storage does not own is answered as on an instance with the same
    policy and an empty storage: nothing of the past calls weighs on it.
    When the key names nothing inherited either, the account left under
    it is the one computed from the new literal. *)
Theorem accept_anonymous_fresh (w : World) (count : JS.value)
    (uniqueID : option string) (rnd : string) (now : Z) :
  uniqueID = None \/ uniqueID = Some ""%string ->
  storage (bucket w) !! rnd = None ->
  fst (accept w count uniqueID rnd now)
  = fst (accept (mkWorld (realm w) (set_storage (bucket w) ∅))
           count uniqueID rnd now)
  /\ (storage_get (realm w) (storage (bucket w)) rnd = None ->
      account_of (snd (accept w count uniqueID rnd now)) rnd
      = Some (snd (snd (serve (bucket w) (realm w) (TAccount new_app)
                          count now)))).
Proof.
  intros Hid Hfresh.
  assert (Hk : resolve uniqueID rnd = rnd) by (destruct Hid; subst; reflexivity).
  split.
  - rewrite !accept_serve. cbv zeta. cbn [fst realm bucket set_storage storage].
    rewrite serve_set_storage, Hk. unfold found_or_new, storage_get.
    rewrite Hfresh, lookup_empty. reflexivity.
  - intros Hnone. pose proof (accept_account w count uniqueID rnd now) as H.
    cbv zeta in H. rewrite Hk in H. rewrite H. unfold found_or_new.
    rewrite Hnone. reflexivity.
Qed.

Lemma accept_anonymous_fresh_witness :
  fst (accept (run pool5 scenario) (JS.Num 5) None "k9x" 1001000)
  = fst (accept (mkWorld (realm (run pool5 scenario))
                   (set_storage (bucket (run pool5 scenario)) ∅))
           (JS.Num 5) None "k9x" 1001000).
Proof.
  refine (proj1 (accept_anonymous_fresh (run pool5 scenario) (JS.Num 5) None
                   "k9x" 1001000 _ _)).
  - left. reflexivity.
  - vm_compute. reflexivity.
Defined.

(** ** Policies that never throttle *)

Section NoThrottle.

Lemma sub_nan_l (a b : JS.value) :
  SFof a = S754_nan -> JS.sub a b = JS.Num nan.
Proof.
  intros H. unfold JS.sub. apply Num_nan.
  rewrite sub_spec. fold (SFof a). rewrite H. reflexivity.
Qed.

Lemma sub_nan_r (a b : JS.value) :
  SFof b = S754_nan -> JS.sub a b = JS.Num nan.
Proof.
  intros H. unfold JS.sub. apply Num_nan.
  rewrite sub_spec. fold (SFof b). rewrite H. apply SF64sub_nan_r.
Qed.

Lemma SFof_Num_nan : SFof (JS.Num nan) = S754_nan.
Proof. reflexivity. Qed.

(** A refill from a level that is no number, or at a rate that is none,
    leaves [NaN]. *)
Lemma refilled_nan_level (self : TokenBucket) (l d : JS.value) :
  SFof l = S754_nan -> refilled self l d = JS.Num nan.
Proof.
  intros H. unfold refilled, JS.math_min. apply Num_nan.
  rewrite fmin_SF. fold (SFof (JS.add l (JS.mul d (ratio self)))).
  rewrite SFof_add, H. reflexivity.
Qed.

Lemma refilled_nan_ratio (self : TokenBucket) (l d : JS.value) :
  SFof (ratio self) = S754_nan -> refilled self l d = JS.Num nan.
Proof.
  intros H. unfold refilled, JS.math_min. apply Num_nan.
  rewrite fmin_SF. fold (SFof (JS.add l (JS.mul d (ratio self)))).
  rewrite SFof_add, SFof_mul, H, SF64mul_nan_r, SF64add_nan_r. reflexivity.
Qed.

Lemma ratio_nan_interval (self : TokenBucket) :
  JS.to_number (get_interval self) = nan -> SFof (ratio self) = S754_nan.
Proof.
  intros H. unfold ratio. rewrite SFof_div. unfold SFof at 2. rewrite H.
  apply SF64div_nan_r.
Qed.

End NoThrottle.

(** X6: under a truthy [bucketSize] and a falsy [tokensPerInterval] (zero,
    [NaN] or unset) the refill fills the bucket before every decision, so
    a call whose identity leads to an object that takes properties is
    granted exactly when its count is not above [bucketSize], at every
    clock reading; a granted call leaves [bucketSize - count], rounded as
    doubles are. *)
Theorem no_rate_never_throttles (w : World) (count : JS.value)
    (uniqueID : option string) (rnd : string) (now : Z) :
  JS.truthy (bucketSize (bucket w)) = true ->
  JS.truthy (tokensPerInterval (bucket w)) = false ->
  is_primitive
    (found_or_new (realm w) (storage (bucket w)) (resolve uniqueID rnd))
  = false ->
  fst (accept w count uniqueID rnd now)
  = negb (JS.gt count (bucketSize (bucket w)))
  /\ (JS.gt count (bucketSize (bucket w)) = false ->
      level (snd (accept w count uniqueID rnd now)) (resolve uniqueID rnd)
      = Some (JS.sub (bucketSize (bucket w)) count)).
Proof.
  intros Hcap Hrate Hp.
  pose proof (accept_level w count uniqueID rnd now) as Hlev.
  cbv zeta in Hlev. rewrite Hlev. rewrite accept_serve. cbv zeta. cbn [fst].
  destruct (JS.gt count (bucketSize (bucket w))) eqn:Hover.
  - split; [|discriminate]. unfold serve. rewrite Hcap, Hover. reflexivity.
  - destruct (serve_object (bucket w) (realm w) _ count now
                (bucketSize (bucket w)) Hp Hcap Hover) as (Ha & Hc & _).
    { rewrite Hrate. reflexivity. }
    rewrite Ha, Hc, Hover. split; [reflexivity|]. intros _. reflexivity.
Qed.

Lemma no_rate_never_throttles_witness :
  fst (accept (run (new_world (JS.Num 5) (JS.Num 0) (IString "day") 0)
                 [mkCall (JS.Num 5) (Some "a"%string) "r" 100])
         (JS.Num 5) (Some "a"%string) "r" 100)
  = negb (JS.gt (JS.Num 5) (JS.Num 5)).
Proof.
  exact (proj1 (no_rate_never_throttles
                  (run (new_world (JS.Num 5) (JS.Num 0) (IString "day") 0)
                     [mkCall (JS.Num 5) (Some "a"%string) "r" 100])
                  (JS.Num 5) (Some "a"%string) "r" 100 eq_refl eq_refl
                  eq_refl)).
Defined.

(** X7: an interval that is no number, as when the third constructor
    argument is left out, makes every refill yield [NaN]; no comparison
    with [NaN] holds, so under a truthy [bucketSize] and
    [tokensPerInterval] a call whose identity leads to an object that
    takes properties is granted exactly when its count is not above
    [bucketSize], at every clock reading, and the level is [NaN] from
    then on. *)
Theorem no_interval_never_throttles (w : World) (count : JS.value)
    (uniqueID : option string) (rnd : string) (now : Z) :
  JS.truthy (bucketSize (bucket w)) = true ->
  JS.truthy (tokensPerInterval (bucket w)) = true ->
  JS.to_number (get_interval (bucket w)) = nan ->
  is_primitive
    (found_or_new (realm w) (storage (bucket w)) (resolve uniqueID rnd))
  = false ->
  fst (accept w count uniqueID rnd now)
  = negb (JS.gt count (bucketSize (bucket w)))
  /\ (JS.gt count (bucketSize (bucket w)) = false ->
      level (snd (accept w count uniqueID rnd now)) (resolve uniqueID rnd)
      = Some (JS.Num nan)).
Proof.
  intros Hcap Hrate Hint Hp.
  pose proof (accept_level w count uniqueID rnd now) as Hlev.
  cbv zeta in Hlev. rewrite Hlev. rewrite accept_serve. cbv zeta. cbn [fst].
  destruct (JS.gt count (bucketSize (bucket w))) eqn:Hover.
  - split; [|discriminate]. unfold serve. rewrite Hcap, Hover. reflexivity.
  - destruct (serve_object (bucket w) (realm w) _ count now
                (JS.Num nan) Hp Hcap Hover) as (Ha & Hc & _).
    { rewrite Hrate. symmetry. apply refilled_nan_ratio.
      apply ratio_nan_interval. exact Hint. }
    rewrite Ha, Hc. rewrite (gt_nan_r count (JS.Num nan)) by reflexivity.
    split; [reflexivity|]. intros _.
    rewrite (sub_nan_l (JS.Num nan) count) by reflexivity. reflexivity.
Qed.

Lemma no_interval_never_throttles_witness :
  fst (accept (new_world (JS.Num 5) (JS.Num 1) (IValue JS.Undefined) 0)
         (JS.Num 5) (Some "a"%string) "r" 0) = true.
Proof.
  exact (proj1 (no_interval_never_throttles
                  (new_world (JS.Num 5) (JS.Num 1) (IValue JS.Undefined) 0)
                  (JS.Num 5) (Some "a"%string) "r" 0 eq_refl eq_refl eq_refl
                  eq_refl)).
Defined.

(** ** Counts and levels that are not numbers *)

(** X15: under a truthy [bucketSize], a call whose count is no number
    ([NaN], or the argument left out) is granted whatever the account
    holds; when its identity leads to an object that takes properties the
    level is left at [NaN]. *)
Theorem nan_count_granted (w : World) (count : JS.value)
    (uniqueID : option string) (rnd : string) (now : Z) :
  JS.truthy (bucketSize (bucket w)) = true ->
  JS.to_number count = nan ->
  fst (accept w count uniqueID rnd now) = true
  /\ (is_primitive
        (found_or_new (realm w) (storage (bucket w)) (resolve uniqueID rnd))
      = false ->
      level (snd (accept w count uniqueID rnd now)) (resolve uniqueID rnd)
      = Some (JS.Num nan)).
Proof.
  intros Hcap Hnan.
  assert (Hc : SFof count = S754_nan) by (unfold SFof; rewrite Hnan; reflexivity).
  pose proof (accept_level w count uniqueID rnd now) as Hlev.
  cbv zeta in Hlev. rewrite Hlev. rewrite accept_serve. cbv zeta. cbn [fst].
  set (app := found_or_new (realm w) (storage (bucket w))
                (resolve uniqueID rnd)).
  pose proof (gt_nan_l count (bucketSize (bucket w)) Hc) as Hover.
  destruct (is_primitive app) eqn:Hp.
  - destruct app as [a|f| |p]; try discriminate.
    rewrite serve_primitive by assumption.
    rewrite (gt_nan_l count _ Hc). split; [reflexivity|discriminate].
  - destruct (serve_object (bucket w) (realm w) app count now _
                Hp Hcap Hover eq_refl) as (Ha & Hl & _).
    rewrite Ha, Hl, (gt_nan_l count _ Hc). split; [reflexivity|].
    intros _. rewrite sub_nan_r by exact Hc. reflexivity.
Qed.

Lemma nan_count_granted_witness :
  fst (accept (run pool5 scenario) JS.Undefined (Some "u1"%string) "r" 1001000)
  = true.
Proof.
  exact (proj1 (nan_count_granted (run pool5 scenario) JS.Undefined
                  (Some "u1"%string) "r" 1001000 eq_refl eq_refl)).
Defined.

(** X16: a level that is no number stays so under a truthy rate: with a
    truthy [bucketSize], a call on such an account is granted exactly
    when its count is not above [bucketSize], at every clock reading, and
    the level it leaves is no number again. *)
Theorem nan_level_absorbing (w : World) (count : JS.value)
    (uniqueID : option string) (rnd : string) (now : Z) :
  JS.truthy (bucketSize (bucket w)) = true ->
  JS.truthy (tokensPerInterval (bucket w)) = true ->
  JS.to_number
    (read_content (realm w)
       (found_or_new (realm w) (storage (bucket w)) (resolve uniqueID rnd)))
  = nan ->
  fst (accept w count uniqueID rnd now)
  = negb (JS.gt count (bucketSize (bucket w)))
  /\ (exists v,
        level (snd (accept w count uniqueID rnd now)) (resolve uniqueID rnd)
        = Some v /\ JS.to_number v = nan).
Proof.
  intros Hcap Hrate Hnan.
  set (app := found_or_new (realm w) (storage (bucket w))
                (resolve uniqueID rnd)) in *.
  assert (Hl : SFof (read_content (realm w) app) = S754_nan)
    by (unfold SFof; rewrite Hnan; reflexivity).
  pose proof (accept_level w count uniqueID rnd now) as Hlev.
  cbv zeta in Hlev. rewrite Hlev. rewrite accept_serve. cbv zeta. cbn [fst].
  fold app.
  destruct (JS.gt count (bucketSize (bucket w))) eqn:Hover.
  - unfold serve. rewrite Hcap, Hover. cbn [negb fst snd].
    split; [reflexivity|]. eexists. split; [reflexivity|exact Hnan].
  - destruct (is_primitive app) eqn:Hp.
    + destruct app as [a|f| |p]; try discriminate.
      rewrite serve_primitive by assumption. cbn [fst snd].
      rewrite (gt_nan_r count _ Hl). split; [reflexivity|].
      eexists. split; [reflexivity|exact Hnan].
    + destruct (serve_object (bucket w) (realm w) app count now
                  (JS.Num nan) Hp Hcap Hover) as (Ha & Hc & _).
      { rewrite Hrate. symmetry. apply refilled_nan_level. exact Hl. }
      rewrite Ha, Hc. rewrite (gt_nan_r count (JS.Num nan)) by reflexivity.
      split; [reflexivity|].
      rewrite (sub_nan_l (JS.Num nan) count) by reflexivity.
      eexists. split; reflexivity.
Qed.

Lemma nan_level_absorbing_witness :
  fst (accept (snd (accept pool5 (JS.Num nan) (Some "u1"%string) "r" 10))
         (JS.Num 5) (Some "u1"%string) "r" 10) = true.
Proof.
  exact (proj1 (nan_level_absorbing
                  (snd (accept pool5 (JS.Num nan) (Some "u1"%string) "r" 10))
                  (JS.Num 5) (Some "u1"%string) "r" 10 eq_refl eq_refl
                  eq_refl)).
Defined.

(** ** Numbers that compare equal *)

Section Same.

Lemma SFsame_refl a : SFsame a a.
Proof. left. reflexivity. Qed.

Lemma SFsame_sym a b : SFsame a b -> SFsame b a.
Proof. intros [->|(s & s' & -> & ->)]; [left|right]; eauto. Qed.

Lemma SFsame_trans a b c : SFsame a b -> SFsame b c -> SFsame a c.
Proof.
  intros [Hab|(s & s' & Ha & Hb)] [Hbc|(t & t' & Hb' & Hc)]; subst.
  - left. reflexivity.
  - right. eauto.
  - right. eauto.
  - right. eauto.
Qed.

Lemma SFsame_compare_l a b y :
  SFsame a b -> SFcompare a y = SFcompare b y.
Proof. intros [->|(s & s' & -> & ->)]; [reflexivity|apply SFcompare_zero_l]. Qed.

Lemma SFsame_compare_r a b x :
  SFsame a b -> SFcompare x a = SFcompare x b.
Proof. intros [->|(s & s' & -> & ->)]; [reflexivity|apply SFcompare_zero_r]. Qed.

Lemma SFsame_nan a b : SFsame a b -> a <> S754_nan -> b <> S754_nan.
Proof. intros [->|(s & s' & -> & ->)] H; [exact H|discriminate]. Qed.

Lemma SFsame_eqb a b : SFsame a b -> a <> S754_nan -> SFeqb a b = true.
Proof.
  intros H Ha. unfold SFeqb. rewrite <- (SFsame_compare_r a b a H).
  rewrite SFcompare_refl by exact Ha. reflexivity.
Qed.

Lemma SFcompare_Eq_same x y : SFcompare x y = Some Eq -> SFsame x y.
Proof.
  intros H. destruct (SFcompare_Eq x y H) as [->|(s & s' & -> & ->)];
    [left|right]; eauto.
Qed.

(** Adding a zero changes no number. *)
Lemma SF64add_zero_r x s :
  x <> S754_nan -> SFsame (SF64add x (S754_zero s)) x.
Proof.
  destruct x as [sx|sx| |sx m e]; intros H; try contradiction.
  - right. destruct sx, s; cbn; eauto.
  - left. reflexivity.
  - left. reflexivity.
Qed.

(** A finite number less itself is [+0]. *)
Lemma SF64sub_diag x :
  match x with S754_zero _ | S754_finite _ _ _ => True | _ => False end ->
  SF64sub x x = S754_zero false.
Proof.
  destruct x as [s|s| |s m e]; intros H; try contradiction.
  - destruct s; reflexivity.
  - unfold SF64sub, SFsub. rewrite Z.sub_diag. reflexivity.
Qed.

Lemma SFltb_nan x y : SFltb x y = true -> x <> S754_nan /\ y <> S754_nan.
Proof.
  unfold SFltb. destruct (SFcompare x y) as [c|] eqn:E; [|discriminate].
  intros _. split; intros ->; [discriminate|].
  destruct x; discriminate.
Qed.

(** [Math.min] is one of its arguments, the lesser. *)
Lemma SFmin_cases x y :
  SFmin x y <> S754_nan ->
  (SFmin x y = x /\ (SFcompare x y = Some Lt \/ SFcompare x y = Some Eq))
  \/ (SFmin x y = y /\ (SFcompare x y = Some Gt \/ SFcompare x y = Some Eq)).
Proof.
  unfold SFmin. destruct (SFcompare x y) as [[]|]; intros H.
  - destruct (SFsign x); auto.
  - auto.
  - auto.
  - contradiction.
Qed.

Lemma SFmin_below x y :
  SFmin x y <> S754_nan ->
  SFcompare (SFmin x y) y = Some Lt \/ SFcompare (SFmin x y) y = Some Eq.
Proof.
  intros H. pose proof H as H0.
  assert (Hy : y <> S754_nan).
  { intros ->. apply H. apply SFmin_nan_r. }
  destruct (SFmin_cases x y H) as [(-> & Hc)|(-> & _)]; [exact Hc|].
  right. apply SFcompare_refl. exact Hy.
Qed.

(** The level after a refill that adds a zero compares equal to the
    level before, and is refused the same count. *)
Lemma min_again (X C CNT : spec_float) (s : bool) :
  SFltb (SFmin X C) CNT = true ->
  SFeqb (SFmin X C) (SFmin (SF64add (SFmin X C) (S754_zero s)) C) = true
  /\ SFltb (SFmin (SF64add (SFmin X C) (S754_zero s)) C) CNT = true.
Proof.
  intros Hlow. destruct (SFltb_nan _ _ Hlow) as (HL & _).
  set (L1 := SFmin X C) in *.
  pose proof (SF64add_zero_r L1 s HL) as Hadd.
  set (X2 := SF64add L1 (S754_zero s)) in *.
  assert (Hc : SFcompare X2 C = Some Lt \/ SFcompare X2 C = Some Eq).
  { rewrite (SFsame_compare_l X2 L1 C Hadd). apply SFmin_below. exact HL. }
  assert (Hsame : SFsame L1 (SFmin X2 C)).
  { unfold SFmin at 1. destruct Hc as [Hc|Hc]; rewrite Hc.
    - apply SFsame_sym. exact Hadd.
    - destruct (SFsign X2).
      + apply SFsame_sym. exact Hadd.
      + apply (SFsame_trans _ X2); [apply SFsame_sym; exact Hadd|].
        apply SFcompare_Eq_same. exact Hc. }
  split.
  - apply SFsame_eqb; assumption.
  - unfold SFltb. rewrite <- (SFsame_compare_l L1 _ CNT Hsame). exact Hlow.
Qed.

(** [Math.max] with [+0]: no number, [+0], or a number above zero. *)
Lemma SFmax_zero_cases A :
  match SFmax A (S754_zero false) with
  | S754_nan | S754_zero false | S754_finite false _ _
  | S754_infinity false => True
  | _ => False
  end.
Proof. destruct A as [[]|[]| |[] m e]; exact I. Qed.

(** Under a rate of [Infinity] or [NaN] the refill leaves the ceiling or
    no number: no count that fits the bucket is refused. *)
Lemma no_rejection_without_finite_rate (A l0 R C CNT : spec_float) :
  SFltb (SFmin (SF64add l0 (SF64mul (SFmax A (S754_zero false)) R)) C) CNT
  = true ->
  SFltb C CNT = false ->
  R <> S754_infinity true ->
  match R with S754_zero _ | S754_finite _ _ _ => True | _ => False end.
Proof.
  intros Hlow Hfit HR.
  destruct R as [s|s| |s m e]; try exact I.
  - destruct s; [contradiction|]. exfalso.
    pose proof (SFmax_zero_cases A) as HD.
    destruct (SFmax A (S754_zero false)) as [[]|[]| |[] md ed];
      try contradiction;
      try (cbn in Hlow; rewrite ?SF64add_nan_r in Hlow; discriminate).
    + (* an infinite elapsed time: the product is +Infinity *)
      assert (Hm : SF64mul (S754_infinity false) (S754_infinity false)
                   = S754_infinity false) by reflexivity.
      rewrite Hm in Hlow.
      destruct l0 as [sl|[]| |sl ml el]; cbn in Hlow; try discriminate;
        (destruct C as [sc|[]| |sc mc ec];
         cbn in Hlow, Hfit; try discriminate; congruence).
    + (* a positive elapsed time: the product is +Infinity *)
      assert (Hm : SF64mul (S754_finite false md ed) (S754_infinity false)
                   = S754_infinity false) by reflexivity.
      rewrite Hm in Hlow.
      destruct l0 as [sl|[]| |sl ml el]; cbn in Hlow; try discriminate;
        (destruct C as [sc|[]| |sc mc ec];
         cbn in Hlow, Hfit; try discriminate; congruence).
  - exfalso. rewrite SF64mul_nan_r, SF64add_nan_r in Hlow. discriminate.
Qed.

End Same.

(** ** A refused call repeated *)

Section Rejection.

Lemma SFof_refilled (self : TokenBucket) (l d : JS.value) :
  SFof (refilled self l d)
  = SFmin (SF64add (SFof l) (SF64mul (SFof d) (SFof (ratio self))))
      (SFof (bucketSize self)).
Proof.
  unfold refilled. rewrite SFof_math_min, SFof_add, SFof_mul. reflexivity.
Qed.

Lemma SFof_deltaMS (r : Realm) (t : target) (now : Z) :
  SFof (deltaMS r t now)
  = SFmax (SF64sub (Prim2SF (JS.of_Z now))
             (SFof (time_value (read_lastDrip r t))))
      (S754_zero false).
Proof.
  unfold deltaMS. rewrite SFof_math_max, SFof_sub. reflexivity.
Qed.

Lemma is_finite_shape (f : float) :
  is_finite f = true ->
  match Prim2SF f with
  | S754_zero _ | S754_finite _ _ _ => True
  | _ => False
  end.
Proof.
  rewrite is_finite_SF. destruct (Prim2SF f); intros H; try discriminate;
    exact I.
Qed.

(** No time has passed since a refill at the same finite reading. *)
Lemma SFof_deltaMS_same (r : Realm) (t : target) (now : Z) :
  is_finite (JS.of_Z now) = true ->
  read_lastDrip r t = Some now ->
  SFof (deltaMS r t now) = S754_zero false.
Proof.
  intros Hfin Hl. rewrite SFof_deltaMS, Hl. cbn [time_value]. unfold SFof.
  cbn [JS.to_number]. rewrite SF64sub_diag by (apply is_finite_shape; exact Hfin).
  reflexivity.
Qed.

Lemma SF64mul_zero_l (R : spec_float) :
  match R with S754_zero _ | S754_finite _ _ _ => True | _ => False end ->
  SF64mul (S754_zero false) R = S754_zero (SFsign R).
Proof. destruct R; intros H; try contradiction; reflexivity. Qed.

(** The heart of the matter: a refused call served again at the same
    reading is refused again, at a level that compares equal. *)
Lemma serve_again (self : TokenBucket) (r : Realm) (app : target)
    (count : JS.value) (now : Z) :
  JS.truthy (bucketSize self) = true ->
  JS.gt count (bucketSize self) = false ->
  let d := drip self r app now in
  JS.gt count (read_content (fst d) (snd d)) = true ->
  JS.to_number (ratio self) <> neg_infinity ->
  is_finite (JS.of_Z now) = true ->
  let s2 := serve self (fst d) (snd d) count now in
  fst s2 = false
  /\ JS.eqb (read_content (fst d) (snd d))
       (read_content (fst (snd s2)) (snd (snd s2))) = true.
Proof.
  intros Hcap Hfit d Hlow Hrho Hfin. cbv zeta.
  assert (Hnn : SFof (read_content (fst d) (snd d)) <> S754_nan).
  { rewrite gt_SF in Hlow. apply SFltb_nan in Hlow. tauto. }
  destruct (is_primitive app) eqn:Hp.
  - destruct app as [a|f| |p]; try discriminate.
    subst d. rewrite drip_primitive in *. cbn [fst snd] in *.
    rewrite serve_primitive by assumption. cbn [fst snd]. rewrite Hlow.
    split; [reflexivity|]. rewrite eqb_SF. unfold SFeqb.
    rewrite SFcompare_refl by exact Hnn. reflexivity.
  - destruct (drip_object self r app now Hp) as (Hc & Hl). fold d in Hc, Hl.
    destruct (JS.truthy (tokensPerInterval self)) eqn:Hrate.
    2:{ rewrite Hc in Hlow. congruence. }
    assert (Hp' : is_primitive (snd d) = false).
    { unfold d. rewrite drip_is_primitive. exact Hp. }
    destruct (serve_object self (fst d) (snd d) count now _ Hp' Hcap Hfit
                eq_refl) as (Ha & Hl2 & _).
    rewrite Hrate in Ha, Hl2.
    set (L1 := read_content (fst d) (snd d)) in *.
    set (L2 := refilled self L1 (deltaMS (fst d) (snd d) now)) in *.
    (* the rate is a finite number *)
    assert (HR : match SFof (ratio self) with
                 | S754_zero _ | S754_finite _ _ _ => True
                 | _ => False
                 end).
    { rewrite gt_SF, Hc, SFof_refilled, SFof_deltaMS in Hlow.
      rewrite gt_SF in Hfit.
      apply (no_rejection_without_finite_rate _ _ _ _ _ Hlow Hfit).
      intros E. apply Hrho. apply Prim2SF_inj. exact E. }
    (* the second refill adds a zero *)
    assert (E2 : SFof L2
                 = SFmin (SF64add (SFof L1)
                            (S754_zero (SFsign (SFof (ratio self)))))
                     (SFof (bucketSize self))).
    { unfold L2. rewrite SFof_refilled.
      rewrite (SFof_deltaMS_same _ _ _ Hfin Hl).
      rewrite SF64mul_zero_l by exact HR. reflexivity. }
    assert (E1 : SFof L1
                 = SFmin (SF64add (SFof (read_content r app))
                            (SF64mul (SFof (deltaMS r app now))
                               (SFof (ratio self))))
                     (SFof (bucketSize self))).
    { rewrite Hc. apply SFof_refilled. }
    rewrite gt_SF in Hlow. fold L1 in Hlow.
    destruct (min_again _ (SFof (bucketSize self)) (SFof count)
                (SFsign (SFof (ratio self)))
                ltac:(rewrite <- E1; exact Hlow)) as (Hsame & Hstill).
    rewrite <- E1, <- E2 in Hsame, Hstill.
    assert (Hgt : JS.gt count L2 = true) by (rewrite gt_SF; exact Hstill).
    rewrite Hgt in Ha, Hl2. rewrite Ha, Hl2. split; [reflexivity|].
    rewrite eqb_SF. exact Hsame.
Qed.

End Rejection.

(** C6, as stated, fails on its last part: with a rate of [-1] per
    interval of [0] the refill rate is [-Infinity]; the first
    [accept(1, "a")] is refused with the level at [-Infinity], and the same
    call at the same clock reading then finds [0 * -Infinity], leaves the
    level at [NaN], and is granted. *)
Lemma rejection_not_repeatable_with_infinite_rate :
  ~ (forall (w : World) (count : JS.value)
            (uniqueID : option string) (rnd : string) (now : Z),
        JS.truthy (bucketSize (bucket w)) = true ->
        JS.gt count (bucketSize (bucket w)) = false ->
        let k := resolve uniqueID rnd in
        let app := found_or_new (realm w) (storage (bucket w)) k in
        let d := drip (bucket w) (realm w) app now in
        JS.gt count (read_content (fst d) (snd d)) = true ->
        let w1 := snd (accept w count uniqueID rnd now) in
        let w2 := snd (accept w1 count uniqueID rnd now) in
        exists l1 l2, level w1 k = Some l1 /\ level w2 k = Some l2
                      /\ (l1 = l2 \/ JS.eqb l1 l2 = true)).
Proof.
  intros H.
  specialize (H (new_world (JS.Num 10) (JS.Num (-1)) (IValue (JS.Num 0)) 0)
                (JS.Num 1) (Some "a"%string) "r"%string 1000
                eq_refl eq_refl eq_refl).
  destruct H as (l1 & l2 & H1 & H2 & H12).
  vm_compute in H1. vm_compute in H2.
  injection H1 as <-. injection H2 as <-.
  destruct H12 as [H12|H12]; [|discriminate].
  apply (f_equal (fun v => is_nan (JS.to_number v))) in H12.
  vm_compute in H12. discriminate.
Qed.

(** The two answers and the two levels of that run. *)
Example infinite_rate_run :
  let w := new_world (JS.Num 10) (JS.Num (-1)) (IValue (JS.Num 0)) 0 in
  let c := mkCall (JS.Num 1) (Some "a"%string) "r" 1000 in
  answers w [c; c] = [false; true]
  /\ level (run w [c]) "a" = Some (JS.Num neg_infinity)
  /\ level (run w [c; c]) "a" = Some (JS.Num nan).
Proof. vm_compute. repeat split. Qed.

(** C6, amended: under a truthy [bucketSize], a call that reaches the
    comparison with the refilled level and fails it answers [false] and
    leaves the account exactly as the refill left it; and, when the refill
    rate [tokensPerInterval / interval] is not [-Infinity] and the clock
    reading is a finite number, the same call repeated at the same reading
    is refused again and finds numerically the same level. *)
Theorem rejection_keeps_refilled_level (w : World) (count : JS.value)
    (uniqueID : option string) (rnd : string) (now : Z) :
  JS.truthy (bucketSize (bucket w)) = true ->
  JS.gt count (bucketSize (bucket w)) = false ->
  let k := resolve uniqueID rnd in
  let app := found_or_new (realm w) (storage (bucket w)) k in
  let d := drip (bucket w) (realm w) app now in
  JS.gt count (read_content (fst d) (snd d)) = true ->
  let w1 := snd (accept w count uniqueID rnd now) in
  let w2 := snd (accept w1 count uniqueID rnd now) in
  fst (accept w count uniqueID rnd now) = false
  /\ realm w1 = fst d
  /\ account_of w1 k = Some (snd d)
  /\ level w1 k = Some (read_content (fst d) (snd d))
  /\ (JS.to_number (ratio (bucket w)) <> neg_infinity ->
      is_finite (JS.of_Z now) = true ->
      fst (accept w1 count uniqueID rnd now) = false
      /\ exists l2, level w2 k = Some l2
                    /\ JS.eqb (read_content (fst d) (snd d)) l2 = true).
Proof.
  intros Hcap Hfit k app d Hlow w1 w2.
  assert (E1 : serve (bucket w) (realm w) app count now = (false, d)).
  { unfold serve. rewrite Hcap, Hfit. cbn [negb]. cbv zeta. fold d.
    rewrite Hlow. reflexivity. }
  assert (Hacc : account_of w1 k = Some (snd d)).
  { unfold w1, k. rewrite accept_account. fold k. fold app. rewrite E1.
    reflexivity. }
  assert (Hrealm : realm w1 = fst d).
  { unfold w1. rewrite accept_serve. cbv zeta. fold k. fold app.
    rewrite E1. reflexivity. }
  assert (Hlev : level w1 k = Some (read_content (fst d) (snd d))).
  { unfold level. rewrite Hacc, Hrealm. reflexivity. }
  split.
  { rewrite accept_serve. cbv zeta. fold k. fold app. rewrite E1.
    reflexivity. }
  split; [exact Hrealm|]. split; [exact Hacc|]. split; [exact Hlev|].
  intros Hrho Hfin.
  destruct (serve_again (bucket w) (realm w) app count now Hcap Hfit Hlow
              Hrho Hfin) as (Ha & He).
  fold d in Ha, He.
  assert (Hb : serve (bucket w1) (realm w1)
                 (found_or_new (realm w1) (storage (bucket w1)) k) count now
               = serve (bucket w) (fst d) (snd d) count now).
  { rewrite (account_of_found w1 k _ Hacc), Hrealm.
    unfold w1. rewrite accept_serve. reflexivity. }
  split.
  - rewrite accept_serve. cbv zeta. fold k. rewrite Hb. exact Ha.
  - unfold w2. pose proof (accept_level w1 count uniqueID rnd now) as Hl2.
    cbv zeta in Hl2. fold k in Hl2. rewrite Hb in Hl2.
    eexists. split; [exact Hl2|exact He].
Qed.

Lemma rejection_keeps_refilled_level_witness :
  let w := new_world (JS.Num 5) (JS.Num 5) (IString "second") 0 in
  fst (accept w (JS.Num 5) (Some "u1"%string) "r" 500) = false
  /\ fst (accept (snd (accept w (JS.Num 5) (Some "u1"%string) "r" 500))
            (JS.Num 5) (Some "u1"%string) "r" 500) = false.
Proof.
  intros w.
  destruct (rejection_keeps_refilled_level w (JS.Num 5)
              (Some "u1"%string) "r" 500) as (H1 & _ & _ & _ & H2).
  - reflexivity.
  - reflexivity.
  - vm_compute. reflexivity.
  - split; [exact H1|]. apply H2.
    + vm_compute. discriminate.
    + vm_compute. reflexivity.
Defined.

(** ** A burst empties a new account *)

Section Burst.

Lemma finite_shape (v : JS.value) :
  finite v = true ->
  match SFof v with
  | S754_zero _ | S754_finite _ _ _ => True
  | _ => False
  end.
Proof.
  destruct v as [|f]; [discriminate|]. apply is_finite_shape.
Qed.




End Burst.

(** ** Rounding to a double *)

Section Rounding.

Lemma fexp_eq (x : Z) : fexp prec emax x = Z.max (x - 53) (-1074).
Proof. reflexivity. Qed.

Lemma digits2_pos_size (p : positive) : digits2_pos p = Pos.size p.
Proof. induction p; cbn; congruence. Qed.

(** [p] has [digits2_pos p] binary digits. *)
Lemma digits2_pos_bounds (p : positive) :
  2 ^ (Zpos (digits2_pos p) - 1) <= Zpos p < 2 ^ Zpos (digits2_pos p).
Proof.
  rewrite digits2_pos_size. split.
  - pose proof (Pos.size_le p) as H.
    assert (E : Zpos (2 ^ Pos.size p) = 2 ^ Zpos (Pos.size p)).
    { rewrite Pos2Z.inj_pow. reflexivity. }
    assert (H2 : 2 ^ Zpos (Pos.size p) <= 2 * Zpos p).
    { rewrite <- E. change (2 * Zpos p) with (Zpos p~0). exact H. }
    replace (Zpos (Pos.size p)) with (Z.succ (Zpos (Pos.size p) - 1)) in H2
      by lia.
    rewrite Z.pow_succ_r in H2 by lia. lia.
  - pose proof (Pos.size_gt p) as H.
    assert (E : Zpos (2 ^ Pos.size p) = 2 ^ Zpos (Pos.size p)).
    { rewrite Pos2Z.inj_pow. reflexivity. }
    rewrite <- E. exact H.
Qed.

(** The number of digits, from bounds. *)
Lemma digits2_pos_le (p : positive) (k : Z) :
  Zpos p < 2 ^ k -> Zpos (digits2_pos p) <= k.
Proof.
  intros H. destruct (digits2_pos_bounds p) as (Hlo & _).
  destruct (Z_lt_le_dec k (Zpos (digits2_pos p))) as [Hk|Hk]; [|exact Hk].
  exfalso.
  assert (0 <= k).
  { destruct (Z_lt_le_dec k 0) as [Hn|Hn]; [|exact Hn].
    rewrite Z.pow_neg_r in H by exact Hn. lia. }
  assert (2 ^ k <= 2 ^ (Zpos (digits2_pos p) - 1))
    by (apply Z.pow_le_mono_r; lia).
  lia.
Qed.

Lemma digits2_pos_ge (p : positive) (k : Z) :
  2 ^ k <= Zpos p -> k < Zpos (digits2_pos p).
Proof.
  intros H. destruct (digits2_pos_bounds p) as (_ & Hhi).
  destruct (Z_lt_le_dec k (Zpos (digits2_pos p))) as [Hk|Hk]; [exact Hk|].
  exfalso.
  assert (2 ^ Zpos (digits2_pos p) <= 2 ^ k)
    by (apply Z.pow_le_mono_r; lia).
  lia.
Qed.

Lemma iter_pos_nat {A : Type} (f : A -> A) (p : positive) (x : A) :
  SpecFloat.iter_pos f p x = Nat.iter (Pos.to_nat p) f x.
Proof.
  revert x. induction p as [p IH|p IH|]; intros x; cbn [SpecFloat.iter_pos].
  - rewrite !IH, Pos2Nat.inj_xI. rewrite <- Nat.iter_add.
    rewrite <- Nat.iter_succ_r. f_equal. lia.
  - rewrite !IH, Pos2Nat.inj_xO. rewrite <- Nat.iter_add. f_equal. lia.
  - reflexivity.
Qed.

Lemma shr_1_spec (mrs : shr_record) :
  0 <= shr_m mrs ->
  shr_1 mrs = {| shr_m := Z.div2 (shr_m mrs);
                 shr_r := Z.odd (shr_m mrs);
                 shr_s := shr_r mrs || shr_s mrs |}.
Proof.
  destruct mrs as [m r s]. cbn [shr_m shr_r shr_s]. intros H.
  destruct m as [|[p|p|]|p]; try reflexivity. lia.
Qed.

(** Shifting an integer right by [k] digits: the quotient, and no
    remainder recorded when there is none. *)
Lemma shr_iter (M : Z) (k : nat) :
  0 <= M ->
  let mrs := Nat.iter k shr_1 {| shr_m := M; shr_r := false; shr_s := false |} in
  shr_m mrs = M / 2 ^ Z.of_nat k
  /\ (M mod 2 ^ Z.of_nat k = 0 -> shr_r mrs = false /\ shr_s mrs = false).
Proof.
  intros HM. induction k as [|k IH].
  - cbn. rewrite Z.div_1_r. auto.
  - cbv zeta in IH |- *. rewrite Nat.iter_succ.
    set (mrs := Nat.iter k shr_1 _) in *.
    destruct IH as (Hm & Hex).
    assert (Hpos : 0 < 2 ^ Z.of_nat k) by (apply Z.pow_pos_nonneg; lia).
    assert (Hnn : 0 <= shr_m mrs).
    { rewrite Hm. apply Z.div_pos; lia. }
    rewrite shr_1_spec by exact Hnn. cbn [shr_m shr_r shr_s].
    rewrite Nat2Z.inj_succ, Z.pow_succ_r by lia.
    split.
    + rewrite Z.div2_div, Hm, Z.div_div by lia. f_equal. lia.
    + intros Hmod.
      rewrite (Z.mul_comm 2), Z.rem_mul_r in Hmod by lia.
      pose proof (Z.mod_pos_bound M (2 ^ Z.of_nat k) Hpos) as Hb1.
      pose proof (Z.mod_pos_bound (M / 2 ^ Z.of_nat k) 2 ltac:(lia)) as Hb2.
      assert (H1 : M mod 2 ^ Z.of_nat k = 0) by nia.
      assert (H2 : (M / 2 ^ Z.of_nat k) mod 2 = 0) by nia.
      destruct (Hex H1) as (-> & ->).
      rewrite Hm. rewrite Zmod_odd in H2.
      destruct (Z.odd (M / 2 ^ Z.of_nat k)); [discriminate|]. auto.
Qed.

Lemma round_nearest_even_bounds (m : Z) (l : location) :
  m <= round_nearest_even m l <= m + 1.
Proof.
  destruct l as [|[]]; cbn; try lia. destruct (Z.even m); lia.
Qed.

End Rounding.

(** ** The shape of a rounded number *)

Section Shape.

Lemma pow2_53 : 2 ^ 53 = 9007199254740992.
Proof. reflexivity. Qed.

Lemma SFpack_signed (s : bool) (m e : Z) : 0 <= m -> SFsigned s (SFpack s m e).
Proof.
  intros H. unfold SFpack. destruct m as [|p|p]; [reflexivity| |lia].
  destruct (Z.eqb _ _); [destruct (Z.leb _ _)|destruct (Z.leb _ _)];
    reflexivity.
Qed.

(** The second shift of [binary_round_aux]. *)
Lemma second_shift (s : bool) (m3 e2 : Z) :
  0 <= m3 <= 2 ^ 53 -> -1074 <= e2 ->
  (let '(mrs'', e'') := shr_fexp prec emax m3 e2 loc_Exact in
   match shr_m mrs'' with
   | Z0 => S754_zero s
   | Zpos m =>
       if Z.leb e'' (Z.sub emax prec) then S754_finite s m e''
       else S754_infinity s
   | Zneg _ => S754_nan
   end) = SFpack s m3 e2.
Proof.
  intros Hm He. rewrite pow2_53 in Hm.
  change (Z.sub emax prec) with 971.
  unfold shr_fexp, SFpack. rewrite fexp_eq.
  destruct m3 as [|p|p]; [| |lia].
  - cbn [Zdigits2]. rewrite Z.add_0_l.
    destruct (Z.max (e2 - 53) (-1074) - e2) eqn:En;
      [reflexivity | exfalso; lia | reflexivity].
  - cbn [Zdigits2].
    destruct (Z.eqb_spec (Zpos p) 9007199254740992) as [E|E].
    + injection E as ->.
      change (Zpos (digits2_pos 9007199254740992)) with 54.
      replace (Z.max (54 + e2 - 53) (-1074) - e2) with 1 by lia.
      reflexivity.
    + assert (Hd : Zpos (digits2_pos p) <= 53).
      { apply digits2_pos_le. rewrite pow2_53. lia. }
      destruct (Z.max (Zpos (digits2_pos p) + e2 - 53) (-1074) - e2) eqn:En;
        [reflexivity | exfalso; lia | reflexivity].
Qed.

(** The first shift: the quotient by a power of two. *)
Lemma first_shift (m : positive) (e e2 : Z) :
  e <= e2 ->
  let r := shr (shr_record_of_loc (Zpos m) loc_Exact) e (e2 - e) in
  snd r = e2
  /\ shr_m (fst r) = Zpos m / 2 ^ (e2 - e)
  /\ (Zpos m mod 2 ^ (e2 - e) = 0 -> loc_of_shr_record (fst r) = loc_Exact).
Proof.
  intros He. cbv zeta. unfold shr.
  destruct (e2 - e) as [|q|q] eqn:En; [| |lia].
  - cbn. rewrite Z.div_1_r. repeat split. lia.
  - cbn [fst snd shr_record_of_loc]. rewrite iter_pos_nat.
    destruct (shr_iter (Zpos m) (Pos.to_nat q) ltac:(lia)) as (Hm & Hex).
    rewrite positive_nat_Z in Hm, Hex. split; [lia|]. split; [exact Hm|].
    intros Hmod. destruct (Hex Hmod) as (Hr & Hs).
    destruct (Nat.iter _ _ _) as [m' r' s']. cbn in Hr, Hs. subst.
    reflexivity.
Qed.

Lemma binary_round_aux_shape (s : bool) (m : positive) (e : Z) :
  let e2 := fexp prec emax (Zpos (digits2_pos m) + e) in
  e <= e2 ->
  exists m3,
    Zpos m / 2 ^ (e2 - e) <= m3 <= Zpos m / 2 ^ (e2 - e) + 1
    /\ (Zpos m mod 2 ^ (e2 - e) = 0 -> m3 = Zpos m / 2 ^ (e2 - e))
    /\ m3 <= 2 ^ 53
    /\ binary_round_aux prec emax s (Zpos m) e loc_Exact = SFpack s m3 e2.
Proof.
  intros e2 He.
  destruct (first_shift m e e2 He) as (H1 & H2 & H3).
  unfold binary_round_aux. unfold shr_fexp at 1.
  cbn [Zdigits2]. fold e2.
  destruct (shr (shr_record_of_loc (Zpos m) loc_Exact) e (e2 - e))
    as [mrs' e'] eqn:E1.
  cbn [fst snd] in H1, H2, H3. subst e'.
  set (m3 := round_nearest_even (shr_m mrs') (loc_of_shr_record mrs')).
  pose proof (round_nearest_even_bounds (shr_m mrs')
                (loc_of_shr_record mrs')) as Hb. fold m3 in Hb.
  rewrite H2 in Hb.
  assert (Hpow : 0 < 2 ^ (e2 - e)) by (apply Z.pow_pos_nonneg; lia).
  assert (Hm2 : 0 <= Zpos m / 2 ^ (e2 - e)) by (apply Z.div_pos; lia).
  assert (He2 : -1074 <= e2 /\ Zpos (digits2_pos m) + e - 53 <= e2).
  { unfold e2. rewrite fexp_eq. lia. }
  assert (Hlt : Zpos m / 2 ^ (e2 - e) < 2 ^ 53).
  { apply Z.div_lt_upper_bound; [lia|].
    rewrite <- Z.pow_add_r by lia.
    destruct (digits2_pos_bounds m) as (_ & Hhi).
    eapply Z.lt_le_trans; [exact Hhi|].
    apply Z.pow_le_mono_r; lia. }
  exists m3. split; [exact Hb|]. split.
  { intros Hmod. unfold m3. rewrite (H3 Hmod). cbn. exact H2. }
  split; [lia|].
  apply second_shift; lia.
Qed.

Lemma binary_round_aux_above (s : bool) (m : positive) (e : Z) :
  fexp prec emax (Zpos (digits2_pos m) + e) < e ->
  binary_round_aux prec emax s (Zpos m) e loc_Exact
  = if Z.leb e 971 then S754_finite s m e else S754_infinity s.
Proof.
  intros He. unfold binary_round_aux, shr_fexp. cbn [Zdigits2].
  destruct (fexp prec emax (Zpos (digits2_pos m) + e) - e) eqn:En; try lia.
  cbn [shr shr_record_of_loc shr_m loc_of_shr_record round_nearest_even].
  cbn [Zdigits2]. rewrite En. cbn [shr shr_record_of_loc shr_m].
  reflexivity.
Qed.

(** Rounding keeps the sign and yields a number. *)
Lemma binary_round_aux_signed (s : bool) (m : positive) (e : Z) :
  SFsigned s (binary_round_aux prec emax s (Zpos m) e loc_Exact).
Proof.
  destruct (Z_lt_le_dec (fexp prec emax (Zpos (digits2_pos m) + e)) e)
    as [H|H].
  - rewrite binary_round_aux_above by exact H.
    destruct (Z.leb e 971); reflexivity.
  - destruct (binary_round_aux_shape s m e H) as (m3 & Hb & _ & _ & ->).
    apply SFpack_signed.
    assert (0 < 2 ^ (fexp prec emax (Zpos (digits2_pos m) + e) - e))
      by (apply Z.pow_pos_nonneg; lia).
    assert (0 <= Zpos m / 2 ^ (fexp prec emax (Zpos (digits2_pos m) + e) - e))
      by (apply Z.div_pos; lia).
    lia.
Qed.

Lemma Pos_iter_xO (p d : positive) :
  Zpos (Pos.iter xO p d) = Zpos p * 2 ^ Zpos d.
Proof.
  induction d as [|d IH] using Pos.peano_ind.
  - cbn. lia.
  - rewrite Pos.iter_succ. rewrite Pos2Z.inj_xO, IH.
    rewrite Pos2Z.inj_succ, Z.pow_succ_r by lia. lia.
Qed.

Lemma digits2_pos_shift (p d : positive) :
  Zpos (digits2_pos (Pos.iter xO p d)) = Zpos (digits2_pos p) + Zpos d.
Proof.
  induction d as [|d IH] using Pos.peano_ind.
  - cbn. lia.
  - rewrite Pos.iter_succ. cbn [digits2_pos]. rewrite Pos2Z.inj_succ, IH.
    lia.
Qed.

(** What [binary_round] yields: the mantissa it packs is the integer
    scaled to the exponent of the format, exactly when that loses no
    digit, and else within one unit above its quotient. *)
Lemma binary_round_shape (s : bool) (p : positive) (e : Z) :
  let e2 := fexp prec emax (Zpos (digits2_pos p) + e) in
  exists m3,
    0 <= m3 <= 2 ^ 53
    /\ binary_round prec emax s p e = SFpack s m3 e2
    /\ (e2 <= e -> m3 = Zpos p * 2 ^ (e - e2))
    /\ (e <= e2 ->
        Zpos p / 2 ^ (e2 - e) <= m3 <= Zpos p / 2 ^ (e2 - e) + 1
        /\ (Zpos p mod 2 ^ (e2 - e) = 0 -> m3 = Zpos p / 2 ^ (e2 - e))).
Proof.
  intros e2. unfold binary_round, shl_align. fold e2.
  destruct (e2 - e) as [|q|q] eqn:En.
  - (* the exponent is the one of the format *)
    assert (He : e <= fexp prec emax (Zpos (digits2_pos p) + e))
      by (fold e2; lia).
    destruct (binary_round_aux_shape s p e He) as (m3 & Hb & Hex & Hle & E).
    fold e2 in Hb, Hex, E. rewrite En in Hb, Hex.
    rewrite Z.pow_0_r, Z.div_1_r in Hb, Hex.
    rewrite (Hex (Z.mod_1_r _)) in *.
    exists (Zpos p). split; [rewrite pow2_53 in *; lia|]. split; [exact E|].
    split.
    + intros _. replace (e - e2) with 0 by lia. cbn. lia.
    + intros _. rewrite Z.div_1_r. split; [lia|]. auto.
  - (* digits are lost *)
    assert (He : e <= fexp prec emax (Zpos (digits2_pos p) + e))
      by (fold e2; lia).
    destruct (binary_round_aux_shape s p e He) as (m3 & Hb & Hex & Hle & E).
    fold e2 in Hb, Hex, E. rewrite En in Hb, Hex.
    assert (0 < 2 ^ Zpos q) by (apply Z.pow_pos_nonneg; lia).
    assert (0 <= Zpos p / 2 ^ Zpos q) by (apply Z.div_pos; lia).
    exists m3. split; [lia|]. split; [exact E|]. split; [lia|].
    intros _. split; assumption.
  - (* the integer is scaled up, exactly *)
    assert (Hd : Zpos (digits2_pos (Pos.iter xO p q)) + e2
                 = Zpos (digits2_pos p) + e).
    { rewrite digits2_pos_shift. lia. }
    assert (He : e2 <= fexp prec emax
                         (Zpos (digits2_pos (Pos.iter xO p q)) + e2)).
    { rewrite Hd. fold e2. lia. }
    destruct (binary_round_aux_shape s (Pos.iter xO p q) e2 He)
      as (m3 & Hb & Hex & Hle & E).
    rewrite Hd in Hb, Hex, E. fold e2 in Hb, Hex, E.
    rewrite Z.sub_diag, Z.pow_0_r, Z.div_1_r in Hb, Hex.
    rewrite (Hex (Z.mod_1_r _)) in *.
    exists (Zpos (Pos.iter xO p q)). split; [lia|]. split; [exact E|].
    split.
    + intros _. rewrite Pos_iter_xO. f_equal. f_equal. lia.
    + intros Hle2. lia.
Qed.

Lemma binary_round_signed (s : bool) (p : positive) (e : Z) :
  SFsigned s (binary_round prec emax s p e).
Proof.
  destruct (binary_round_shape s p e) as (m3 & Hb & -> & _).
  apply SFpack_signed. lia.
Qed.

End Shape.

(** ** Order and overflow *)

Section Bounds.

(** What validity says of a finite double. *)
Lemma valid_finite (s : bool) (m : positive) (e : Z) :
  valid_binary (S754_finite s m e) = true ->
  Z.max (Zpos (digits2_pos m) + e - 53) (-1074) = e /\ e <= 971.
Proof.
  cbn [SpecFloat.valid_binary]. unfold bounded, canonical_mantissa.
  rewrite fexp_eq. change (Z.sub emax prec) with 971.
  intros H. apply andb_prop in H. destruct H as (H1 & H2).
  apply Z.eqb_eq in H1. apply Z.leb_le in H2. auto.
Qed.

Lemma SFcompare_pos (m1 m2 : positive) (e1 e2 : Z) :
  SFcompare (S754_finite false m1 e1) (S754_finite false m2 e2) = Some Lt
  \/ SFcompare (S754_finite false m1 e1) (S754_finite false m2 e2) = Some Eq
  <-> e1 < e2 \/ (e1 = e2 /\ Zpos m1 <= Zpos m2).
Proof.
  cbn [SFcompare].
  change (Pos.compare_cont Eq m1 m2) with (Pos.compare m1 m2).
  destruct (Z.compare_spec e1 e2) as [He|He|He];
    destruct (Pos.compare_spec m1 m2) as [Hm|Hm|Hm];
    split; intros H; try (destruct H as [H|H]; discriminate);
    try (left; reflexivity); try (right; reflexivity); try lia;
    auto.
Qed.

(** The order on numbers that are not negative is transitive. *)
Lemma SFleb_trans_pos (a b c : spec_float) :
  match b with
  | S754_zero _ | S754_finite false _ _ => True
  | _ => False
  end ->
  match c with
  | S754_finite false _ _ => True
  | _ => False
  end ->
  match a with
  | S754_zero _ | S754_finite false _ _ => True
  | _ => False
  end ->
  SFleb a b = true -> SFleb b c = true -> SFleb a c = true.
Proof.
  intros Hb Hc Ha H1 H2.
  destruct a as [sa|sa| |[] ma ea]; try contradiction;
    destruct b as [sb|sb| |[] mb eb]; try contradiction;
    destruct c as [sc|sc| |[] mc ec]; try contradiction;
    try reflexivity; try (cbn in H1; discriminate).
  unfold SFleb in *.
  assert (G1 : ea < eb \/ (ea = eb /\ Zpos ma <= Zpos mb)).
  { apply SFcompare_pos.
    destruct (SFcompare (S754_finite false ma ea) _) as [[]|];
      try discriminate; auto. }
  assert (G2 : eb < ec \/ (eb = ec /\ Zpos mb <= Zpos mc)).
  { apply SFcompare_pos.
    destruct (SFcompare (S754_finite false mb eb) _) as [[]|];
      try discriminate; auto. }
  assert (G3 : ea < ec \/ (ea = ec /\ Zpos ma <= Zpos mc)) by lia.
  apply SFcompare_pos in G3. destruct G3 as [-> | ->]; reflexivity.
Qed.



End Bounds.

(** ** A difference that does not go below zero *)

Section Subtraction.

Lemma shl_align_fst (m : positive) (e ez : Z) :
  ez <= e -> Zpos (fst (shl_align m e ez)) = Zpos m * 2 ^ (e - ez).
Proof.
  intros H. unfold shl_align. destruct (ez - e) as [|q|q] eqn:En.
  - cbn [fst]. replace (e - ez) with 0 by lia. lia.
  - lia.
  - cbn [fst]. rewrite Pos_iter_xO. f_equal. f_equal. lia.
Qed.

Lemma SFleb_pos (m1 m2 : positive) (e1 e2 : Z) :
  e1 < e2 \/ (e1 = e2 /\ Zpos m1 <= Zpos m2) ->
  SFleb (S754_finite false m1 e1) (S754_finite false m2 e2) = true.
Proof.
  intros H. apply SFcompare_pos in H. unfold SFleb.
  destruct H as [-> | ->]; reflexivity.
Qed.

(** Taking a lesser amount from a positive double leaves a double that
    is neither negative nor above it, however the difference rounds. *)
Lemma SF64sub_below (mL mn : positive) (eL en : Z) :
  valid_binary (S754_finite false mL eL) = true ->
  valid_binary (S754_finite false mn en) = true ->
  en < eL \/ (en = eL /\ Zpos mn <= Zpos mL) ->
  let r := SF64sub (S754_finite false mL eL) (S754_finite false mn en) in
  match r with
  | S754_zero false | S754_finite false _ _ => True
  | _ => False
  end
  /\ SFleb r (S754_finite false mL eL) = true.
Proof.
  intros HvL Hvn Hle. cbv zeta.
  destruct (valid_finite _ _ _ HvL) as (HL & HeL).
  destruct (valid_finite _ _ _ Hvn) as (Hn & _).
  destruct (digits2_pos_bounds mL) as (HmL1 & HmL2).
  destruct (digits2_pos_bounds mn) as (_ & Hmn2).
  set (dL := Zpos (digits2_pos mL)) in *.
  set (dn := Zpos (digits2_pos mn)) in *.
  assert (Hee : en <= eL) by lia.
  unfold SF64sub, SFsub. cbv zeta. rewrite Z.min_r by exact Hee.
  cbn [cond_Zopp]. rewrite (shl_align_fst mL eL en Hee).
  rewrite (shl_align_fst mn en en) by lia.
  rewrite Z.sub_diag, Z.pow_0_r, Z.mul_1_r.
  assert (Ht : 0 < 2 ^ (eL - en)) by (apply Z.pow_pos_nonneg; lia).
  (* the difference of the mantissas is not negative *)
  assert (HD : Zpos mn <= Zpos mL * 2 ^ (eL - en)).
  { destruct Hle as [Hlt|(-> & Hm)].
    - assert (dL = 53) by lia.
      assert (H52 : 2 ^ 52 <= Zpos mL).
      { replace 52 with (dL - 1) by lia. exact HmL1. }
      assert (Hdn : dn <= 53) by lia.
      assert (H53 : 2 ^ dn <= 2 ^ 53) by (apply Z.pow_le_mono_r; lia).
      assert (H2 : 2 ^ 1 <= 2 ^ (eL - en)) by (apply Z.pow_le_mono_r; lia).
      change (2 ^ 1) with 2 in H2. change (2 ^ 52) with 4503599627370496 in H52.
      change (2 ^ 53) with 9007199254740992 in H53. nia.
    - rewrite Z.sub_diag, Z.pow_0_r. lia. }
  destruct (Zpos mL * 2 ^ (eL - en) - Zpos mn) as [|p|p] eqn:ED; [| |lia].
  { split; [exact I|reflexivity]. }
  cbn [binary_normalize].
  destruct (binary_round_shape false p en) as (m3 & Hb & -> & Hup & Hdown).
  set (e2 := fexp prec emax (Zpos (digits2_pos p) + en)) in *.
  (* the exponent of the result is at most the one of the minuend *)
  assert (Hp : Zpos p < Zpos mL * 2 ^ (eL - en)) by lia.
  assert (Hdp : Zpos (digits2_pos p) <= dL + (eL - en)).
  { apply digits2_pos_le. rewrite Z.pow_add_r by lia.
    eapply Z.lt_le_trans; [exact Hp|].
    apply Z.mul_le_mono_nonneg_r; lia. }
  assert (He2 : -1074 <= e2 <= eL).
  { unfold e2. rewrite fexp_eq. lia. }
  assert (Ht2 : 0 < 2 ^ (eL - e2)) by (apply Z.pow_pos_nonneg; lia).
  (* the mantissa is at most the minuend scaled to that exponent *)
  assert (HK : m3 <= Zpos mL * 2 ^ (eL - e2)).
  { destruct (Z_le_gt_dec e2 en) as [Hc|Hc].
    - rewrite (Hup Hc).
      replace (eL - e2) with ((eL - en) + (en - e2)) by lia.
      rewrite Z.pow_add_r by lia.
      assert (0 < 2 ^ (en - e2)) by (apply Z.pow_pos_nonneg; lia).
      rewrite Z.mul_assoc. apply Z.mul_le_mono_nonneg_r; lia.
    - destruct (Hdown ltac:(lia)) as ((_ & Hm3) & _).
      assert (Ht3 : 0 < 2 ^ (e2 - en)) by (apply Z.pow_pos_nonneg; lia).
      assert (Hq : Zpos p / 2 ^ (e2 - en) < Zpos mL * 2 ^ (eL - e2)).
      { apply Z.div_lt_upper_bound; [exact Ht3|].
        replace (2 ^ (e2 - en) * (Zpos mL * 2 ^ (eL - e2)))
          with (Zpos mL * 2 ^ (eL - en)); [exact Hp|].
        replace (eL - en) with ((eL - e2) + (e2 - en)) by lia.
        rewrite Z.pow_add_r by lia. ring. }
      lia. }
  assert (HmL53 : Zpos mL < 2 ^ 53).
  { eapply Z.lt_le_trans; [exact HmL2|]. apply Z.pow_le_mono_r; lia. }
  rewrite pow2_53 in *.
  unfold SFpack. destruct m3 as [|q|q]; [| |lia].
  { split; [exact I|reflexivity]. }
  destruct (Z.eqb_spec (Zpos q) 9007199254740992) as [Eq|Eq].
  - (* the mantissa rounded up to 2^53 *)
    assert (Hgap : e2 + 1 <= eL).
    { destruct (Z_le_gt_dec (e2 + 1) eL) as [Hc|Hc]; [exact Hc|].
      exfalso. replace (eL - e2) with 0 in HK by lia.
      rewrite Z.pow_0_r in HK. lia. }
    destruct (Z.leb_spec (e2 + 1) 971); [|lia].
    split; [exact I|]. apply SFleb_pos.
    destruct (Z_lt_le_dec (e2 + 1) eL) as [Hc|Hc]; [left; exact Hc|].
    right. split; [lia|].
    replace (eL - e2) with 1 in HK by lia. change (2 ^ 1) with 2 in HK.
    lia.
  - destruct (Z.leb_spec e2 971); [|lia].
    split; [exact I|]. apply SFleb_pos.
    destruct (Z_lt_le_dec e2 eL) as [Hc|Hc]; [left; exact Hc|].
    right. split; [lia|].
    replace (eL - e2) with 0 in HK by lia. rewrite Z.pow_0_r in HK. lia.
Qed.

End Subtraction.

(** ** One call keeps the level in range *)

Section Range.

Lemma SFsigned_false_nonneg (x : spec_float) : SFsigned false x -> SFnonneg x.
Proof. destruct x as [s|s| |s m e]; cbn; intros H; subst; auto. Qed.

Lemma binary_normalize_not_nan (z e : Z) (s : bool) :
  binary_normalize prec emax z e s <> S754_nan.
Proof.
  destruct z as [|p|p]; cbn [binary_normalize]; [discriminate| |].
  - pose proof (binary_round_signed false p e) as H.
    destruct (binary_round _ _ _ _ _); try discriminate. contradiction.
  - pose proof (binary_round_signed true p e) as H.
    destruct (binary_round _ _ _ _ _); try discriminate. contradiction.
Qed.

(** The time elapsed between two finite readings, cut at zero. *)
Lemma elapsed_nonneg (N T : spec_float) :
  match N with S754_zero _ | S754_finite _ _ _ => True | _ => False end ->
  match T with S754_zero _ | S754_finite _ _ _ => True | _ => False end ->
  SFnonneg (SFmax (SF64sub N T) (S754_zero false)).
Proof.
  intros HN HT.
  assert (HA : SF64sub N T <> S754_nan).
  { destruct N as [sn|sn| |sn mn en]; try contradiction;
      destruct T as [st|st| |st mt et]; try contradiction;
      try (destruct sn, st; discriminate); try discriminate.
    unfold SF64sub, SFsub. apply binary_normalize_not_nan. }
  pose proof (SFmax_zero_cases (SF64sub N T)) as H.
  destruct (SF64sub N T) as [[]|[]| |[] m e]; try contradiction; exact I.
Qed.

Lemma SF64mul_nonneg (D : spec_float) (m : positive) (e : Z) :
  SFnonneg D -> SFnonneg (SF64mul D (S754_finite false m e)).
Proof.
  destruct D as [s|[]| |[] md ed]; intros H; try contradiction;
    try exact I.
  unfold SF64mul, SFmul. apply SFsigned_false_nonneg.
  apply binary_round_aux_signed.
Qed.

Lemma SF64add_nonneg (x y : spec_float) :
  SFnonneg x -> SFnonneg y -> SFnonneg (SF64add x y).
Proof.
  destruct x as [sx|[]| |[] mx ex]; intros Hx; try contradiction;
    destruct y as [sy|[]| |[] my ey]; intros Hy; try contradiction;
    try exact I.
  - destruct sx, sy; exact I.
  - unfold SF64add, SFadd. cbv zeta. cbn [cond_Zopp].
    apply SFsigned_false_nonneg.
    cbn [Z.add binary_normalize]. apply binary_round_signed.
Qed.

(** Capped at a positive finite ceiling, what is not negative lies in the
    range. *)
Lemma SFmin_within (X : spec_float) (mc : positive) (ec : Z) :
  SFnonneg X ->
  let L := SFmin X (S754_finite false mc ec) in
  match L with S754_zero _ | S754_finite false _ _ => True | _ => False end
  /\ SFleb L (S754_finite false mc ec) = true.
Proof.
  intros HX. cbv zeta.
  assert (Hn : SFmin X (S754_finite false mc ec) <> S754_nan).
  { unfold SFmin. destruct X as [sx|[]| |[] mx ex]; try contradiction;
      cbn; try discriminate.
    destruct (ex ?= ec); try discriminate.
    destruct (Pos.compare_cont Eq mx mc); discriminate. }
  pose proof (SFmin_below _ _ Hn) as Hb.
  split.
  - destruct (SFmin_cases _ _ Hn) as [(-> & Hc)|(-> & _)]; [|exact I].
    destruct X as [sx|[]| |[] mx ex]; try contradiction; try exact I.
    destruct Hc as [Hc|Hc]; discriminate.
  - unfold SFleb. destruct Hb as [-> | ->]; reflexivity.
Qed.

(** The debit of a count that is not negative and not above the level. *)
Lemma debit_within (L CNT : spec_float) (mc : positive) (ec : Z) :
  valid_binary L = true -> valid_binary CNT = true ->
  match L with S754_zero _ | S754_finite false _ _ => True | _ => False end ->
  SFleb L (S754_finite false mc ec) = true ->
  SFnonneg CNT ->
  SFltb L CNT = false ->
  SFleb (S754_zero false) (SF64sub L CNT) = true
  /\ SFleb (SF64sub L CNT) (S754_finite false mc ec) = true.
Proof.
  intros HvL HvC HL HLC HC Hlt.
  destruct L as [sl|sl| |[] mL eL]; try contradiction;
    destruct CNT as [sc|[]| |[] mn en]; try contradiction;
    try discriminate.
  - destruct sl, sc; split; reflexivity.
  - split; [reflexivity|exact HLC].
  - assert (Hle : en < eL \/ (en = eL /\ Zpos mn <= Zpos mL)).
    { apply SFcompare_pos. unfold SFltb in Hlt.
      rewrite (SFcompare_antisym (S754_finite false mL eL)).
      destruct (SFcompare (S754_finite false mL eL) _) as [[]|] eqn:E;
        try discriminate; cbn; auto. }
    destruct (SF64sub_below mL mn eL en HvL HvC Hle) as (Hs & Hb).
    split.
    + destruct (SF64sub _ _) as [[]|[]| |[] m e]; try contradiction;
        reflexivity.
    + apply (SFleb_trans_pos _ (S754_finite false mL eL)); try exact I;
        try assumption.
      destruct (SF64sub _ _) as [[]|[]| |[] m e]; try contradiction; exact I.
Qed.

Lemma within_SF (v cap : JS.value) :
  JS.within v cap
  = SFleb (S754_zero false) (SFof v) && SFleb (SFof v) (SFof cap).
Proof. unfold JS.within. rewrite !le_SF. reflexivity. Qed.

Lemma within_shape (v cap : JS.value) (mc : positive) (ec : Z) :
  SFof cap = S754_finite false mc ec ->
  JS.within v cap = true ->
  match SFof v with
  | S754_zero _ | S754_finite false _ _ => True
  | _ => False
  end
  /\ SFleb (SFof v) (S754_finite false mc ec) = true.
Proof.
  intros HC. rewrite within_SF, HC. intros H. apply andb_prop in H.
  destruct H as (H0 & H1). split; [|exact H1].
  destruct (SFof v) as [s|[]| |[] m e]; try discriminate; exact I.
Qed.

Lemma shape_within (v cap : JS.value) (mc : positive) (ec : Z) :
  SFof cap = S754_finite false mc ec ->
  match SFof v with
  | S754_zero _ | S754_finite false _ _ => True
  | _ => False
  end ->
  SFleb (SFof v) (S754_finite false mc ec) = true ->
  JS.within v cap = true.
Proof.
  intros HC Hs Hle. rewrite within_SF, HC, Hle.
  destruct (SFof v) as [s|[]| |[] m e]; try contradiction; reflexivity.
Qed.

Lemma positive_finite_shape (v : JS.value) :
  finite v = true -> JS.gt v (JS.Num 0) = true ->
  exists m e, SFof v = S754_finite false m e.
Proof.
  intros Hf Hg. apply finite_shape in Hf. rewrite gt_SF in Hg.
  change (SFof (JS.Num 0)) with (S754_zero false) in Hg.
  destruct (SFof v) as [s|s| |[] m e]; try contradiction; try discriminate.
  eauto.
Qed.

Lemma nonneg_count (count : JS.value) :
  JS.le (JS.Num 0) count = true -> SFnonneg (SFof count).
Proof.
  rewrite le_SF. change (SFof (JS.Num 0)) with (S754_zero false).
  destruct (SFof count) as [s|[]| |[] m e]; try discriminate; intros _; exact I.
Qed.

(** One call on a sound record leaves a sound record. *)
Lemma serve_sound (self : TokenBucket) (r : Realm) (a : App)
    (count : JS.value) (now : Z) :
  finite (bucketSize self) = true ->
  JS.gt (bucketSize self) (JS.Num 0) = true ->
  rate_ok self = true ->
  JS.le (JS.Num 0) count = true ->
  is_finite (JS.of_Z now) = true ->
  sound self (TAccount a) ->
  sound self (snd (snd (serve self r (TAccount a) count now))).
Proof.
  intros Hcfin Hcpos Hrate Hcount Hnow (a0 & Ea & Hin & Hts).
  injection Ea as <-.
  destruct (positive_finite_shape _ Hcfin Hcpos) as (mc & ec & HC).
  assert (Hcap : JS.truthy (bucketSize self) = true).
  { rewrite truthy_SF, HC. reflexivity. }
  pose proof (serve_same self r (TAccount a) count now) as Hsame.
  destruct (snd (snd (serve self r (TAccount a) count now)))
    as [a'| | |] eqn:Es; try contradiction.
  destruct (JS.gt count (bucketSize self)) eqn:Hover.
  { unfold serve in Es. rewrite Hcap, Hover in Es. cbn in Es.
    injection Es as <-. exists a. auto. }
  destruct (serve_object self r (TAccount a) count now _ eq_refl Hcap Hover
              eq_refl) as (_ & Hl & Ht).
  rewrite Es in Hl, Ht. cbn [read_content read_lastDrip] in Hl, Ht.
  exists a'. split; [reflexivity|].
  (* the refilled level is in range *)
  set (L := if JS.truthy (tokensPerInterval self)
            then refilled self (content a) (deltaMS r (TAccount a) now)
            else bucketSize self) in *.
  destruct (within_shape _ _ mc ec HC Hin) as (Hls & Hlc).
  assert (HL : match SFof L with
               | S754_zero _ | S754_finite false _ _ => True
               | _ => False
               end
               /\ SFleb (SFof L) (S754_finite false mc ec) = true).
  { unfold L. destruct (JS.truthy (tokensPerInterval self)) eqn:Hr.
    - unfold rate_ok in Hrate. rewrite Hr in Hrate. cbn [negb orb] in Hrate.
      apply andb_prop in Hrate. destruct Hrate as (Hrf & Hrp).
      destruct (positive_finite_shape _ Hrf Hrp) as (mr & er & HR).
      rewrite SFof_refilled, HC, HR, SFof_deltaMS.
      cbn [read_lastDrip time_value]. apply SFmin_within.
      apply SF64add_nonneg.
      + destruct (SFof (content a)) as [s|[]| |[] m e]; try contradiction;
          exact I.
      + apply SF64mul_nonneg. apply elapsed_nonneg.
        * apply is_finite_shape. exact Hnow.
        * apply is_finite_shape. exact Hts.
    - rewrite HC. split; [exact I|]. unfold SFleb.
      rewrite SFcompare_refl by discriminate. reflexivity. }
  destruct HL as (HLs & HLc).
  split.
  - rewrite Hl. destruct (JS.gt count L) eqn:Hg.
    + apply (shape_within _ _ mc ec HC); assumption.
    + rewrite gt_SF in Hg.
      destruct (debit_within (SFof L) (SFof count) mc ec) as (H0 & H1);
        try assumption; try apply Prim2SF_valid.
      { apply nonneg_count. exact Hcount. }
      rewrite within_SF, SFof_sub, HC, H0, H1. reflexivity.
  - destruct (JS.truthy (tokensPerInterval self)).
    + injection Ht as ->. exact Hnow.
    + injection Ht as ->. exact Hts.
Qed.

End Range.

(** ** The level stays in range along a sequence of calls *)

Section RangeOfLevels.

Lemma sound_new_app (self : TokenBucket) :
  finite (bucketSize self) = true ->
  JS.gt (bucketSize self) (JS.Num 0) = true ->
  sound self (TAccount new_app).
Proof.
  intros Hf Hp. destruct (positive_finite_shape _ Hf Hp) as (mc & ec & HC).
  exists new_app. split; [reflexivity|]. split; [|reflexivity].
  apply (shape_within _ _ mc ec HC); [exact I|reflexivity].
Qed.

(** One call on an identity that leads to a sound record leaves it
    leading to a sound record, its level in range. *)
Lemma accept_sound (w : World) (count : JS.value) (id rnd : string)
    (now : Z) :
  finite (bucketSize (bucket w)) = true ->
  JS.gt (bucketSize (bucket w)) (JS.Num 0) = true ->
  rate_ok (bucket w) = true ->
  id <> ""%string ->
  sound (bucket w) (found_or_new (realm w) (storage (bucket w)) id) ->
  JS.le (JS.Num 0) count = true ->
  is_finite (JS.of_Z now) = true ->
  let w' := snd (accept w count (Some id) rnd now) in
  sound (bucket w') (found_or_new (realm w') (storage (bucket w')) id)
  /\ level_within id w'.
Proof.
  intros Hcfin Hcpos Hrate Hid Hs Hcount Hnow. cbv zeta.
  pose proof (accept_account w count (Some id) rnd now) as Hacc.
  pose proof (accept_level w count (Some id) rnd now) as Hlev.
  cbv zeta in Hacc, Hlev. rewrite resolve_explicit in Hacc, Hlev by exact Hid.
  destruct Hs as (a & Ea & Hin & Hts). rewrite Ea in Hacc, Hlev.
  destruct (serve_sound (bucket w) (realm w) a count now Hcfin Hcpos Hrate
              Hcount Hnow) as (a' & Ea' & Hin' & Hts').
  { exists a. auto. }
  rewrite Ea' in Hacc, Hlev. cbn [read_content] in Hlev.
  destruct (accept_policy w count (Some id) rnd now) as (Hb & _).
  split.
  - rewrite (account_of_found _ _ _ Hacc). exists a'.
    split; [reflexivity|]. rewrite Hb. auto.
  - exists (content a'). split; [exact Hlev|]. rewrite Hb. exact Hin'.
Qed.

Lemma step_rate_ok (w : World) (c : call) :
  finite (bucketSize (bucket (step w c))) = finite (bucketSize (bucket w))
  /\ JS.gt (bucketSize (bucket (step w c))) (JS.Num 0)
     = JS.gt (bucketSize (bucket w)) (JS.Num 0)
  /\ rate_ok (bucket (step w c)) = rate_ok (bucket w).
Proof. unfold step. rewrite accept_serve. repeat split. Qed.

End RangeOfLevels.

(** C1, as stated, fails: a negative count is credited.  Under a ceiling
    of 10 the call [accept(-5, "a")] on a full bucket leaves the level at
    15. *)
Lemma level_range_fails_for_negative_count :
  ~ (forall (w : World) (id : string) (cs : list call),
        JS.truthy (bucketSize (bucket w)) = true ->
        id <> ""%string ->
        (forall v, level w id = Some v ->
                   JS.within v (bucketSize (bucket w)) = true) ->
        Forall (fun cl => call_uniqueID cl = Some id) cs ->
        Forall (level_within id) (states w cs)).
Proof.
  intros H.
  specialize (H (new_world (JS.Num 10) (JS.Num 1) (IValue (JS.Num 1000)) 0)
                "a"%string
                [mkCall (JS.Num (-5)) (Some "a"%string) "r" 20000]).
  assert (Hs : Forall (level_within "a")
                 (states (new_world (JS.Num 10) (JS.Num 1)
                            (IValue (JS.Num 1000)) 0)
                    [mkCall (JS.Num (-5)) (Some "a"%string) "r" 20000])).
  { apply H.
    - reflexivity.
    - discriminate.
    - intros v Hv. vm_compute in Hv. discriminate.
    - repeat constructor. }
  apply Forall_cons in Hs as [(v & Hl & Hw) _].
  vm_compute in Hl. injection Hl as <-.
  vm_compute in Hw. discriminate.
Qed.

(** The level that call leaves behind. *)
Example negative_count_level :
  level (step (new_world (JS.Num 10) (JS.Num 1) (IValue (JS.Num 1000)) 0)
           (mkCall (JS.Num (-5)) (Some "a"%string) "r" 20000)) "a"
  = Some (JS.Num 15).
Proof. vm_compute. reflexivity. Qed.

(** A negative rate takes tokens away and drives the level below zero. *)
Example negative_rate_level :
  level (step (new_world (JS.Num 10) (JS.Num (-1)) (IValue (JS.Num 1000)) 0)
           (mkCall (JS.Num 0) (Some "a"%string) "r" 20000)) "a"
  = Some (JS.Num (-20)).
Proof. vm_compute. reflexivity. Qed.

(** A zero interval makes the rate infinite; with no time elapsed the
    refill is [0 * Infinity] and the level is no number at all. *)
Example zero_interval_level :
  level (step (new_world (JS.Num 10) (JS.Num 1) (IValue (JS.Num 0)) 0)
           (mkCall (JS.Num 1) (Some "a"%string) "r" 0)) "a"
  = Some (JS.Num nan).
Proof. vm_compute. reflexivity. Qed.

(** Under a negative ceiling a new account starts above it, at 0. *)
Example negative_bucketSize_level :
  let w := step (new_world (JS.Num (-5)) (JS.Num 1) (IValue (JS.Num 1000)) 0)
             (mkCall (JS.Num 0) (Some "a"%string) "r" 20000) in
  level w "a" = Some (JS.Num 0)
  /\ JS.within (JS.Num 0) (bucketSize (bucket w)) = false.
Proof. vm_compute. split; reflexivity. Qed.

(** Under an infinite ceiling the request for all of it leaves
    [Infinity - Infinity]. *)
Example infinite_bucketSize_level :
  level (step (new_world (JS.Num infinity) JS.Undefined
                 (IValue (JS.Num 1000)) 0)
           (mkCall (JS.Num infinity) (Some "a"%string) "r" 20000)) "a"
  = Some (JS.Num nan).
Proof. vm_compute. reflexivity. Qed.

(** An identity that names an inherited method leads to no record: its
    level is no number. *)
Example inherited_method_level :
  level (step pool5 (mkCall (JS.Num 1) (Some "constructor"%string) "r" 1000500))
    "constructor"
  = Some (JS.Num nan).
Proof. vm_compute. reflexivity. Qed.

(** C1, amended: under a [bucketSize] that is a finite number above zero,
    a rate that is either falsy or a finite number of tokens per
    millisecond above zero, and counts that are numbers not below zero,
    every call of a sequence directed at one identity that leads to a
    record of [accept]'s own making (a stored one whose level is in range,
    or none yet) leaves that account with [0 <= level <= bucketSize], at
    any finite clock readings, whatever the rounding. *)
Theorem level_stays_within (w : World) (id : string) (cs : list call) :
  finite (bucketSize (bucket w)) = true ->
  JS.gt (bucketSize (bucket w)) (JS.Num 0) = true ->
  rate_ok (bucket w) = true ->
  id <> ""%string ->
  sound (bucket w) (found_or_new (realm w) (storage (bucket w)) id) ->
  Forall (fun cl => call_uniqueID cl = Some id
                    /\ JS.le (JS.Num 0) (call_count cl) = true
                    /\ is_finite (JS.of_Z (call_now cl)) = true) cs ->
  Forall (level_within id) (states w cs).
Proof.
  intros Hcfin Hcpos Hrate Hid Hs Hcs. revert w Hcfin Hcpos Hrate Hs.
  induction Hcs as [|cl cs (Hcl & Hcount & Hnow) _ IH];
    intros w Hcfin Hcpos Hrate Hs.
  - constructor.
  - cbn [states].
    destruct (step_rate_ok w cl) as (E1 & E2 & E3).
    destruct (accept_sound w (call_count cl) id (call_rnd cl) (call_now cl)
                Hcfin Hcpos Hrate Hid Hs Hcount Hnow) as (Hs' & Hw').
    assert (Hstep : step w cl
                    = snd (accept w (call_count cl) (Some id) (call_rnd cl)
                             (call_now cl))).
    { unfold step. rewrite Hcl. reflexivity. }
    rewrite <- Hstep in Hs', Hw'.
    constructor; [exact Hw'|].
    apply IH; congruence.
Qed.

Lemma level_stays_within_witness :
  Forall (level_within "u1") (states pool5 scenario).
Proof.
  apply (level_stays_within pool5 "u1" scenario).
  - reflexivity.
  - reflexivity.
  - vm_compute. reflexivity.
  - discriminate.
  - exists new_app. vm_compute. repeat split.
  - repeat constructor.
Defined.

(** ** Late readings and negative rates *)

Section Late.



End Late.




(** An infinite bucket is truthy too, and the request for all of it is
    refused at any reading. *)
Example infinite_bucket_burst :
  fst (accept (new_world (JS.Num infinity) (JS.Num 1) (IString "sec") 0)
         (JS.Num infinity) (Some "a"%string) "r" 1000000) = false.
Proof. vm_compute. reflexivity. Qed.

(** Under an infinite rate the call that follows the burst meets
    [0 * Infinity] and is granted. *)
Example infinite_rate_burst :
  let w := new_world (JS.Num 5) (JS.Num infinity) (IString "sec") 0 in
  answers w [mkCall (JS.Num 5) (Some "a"%string) "r" 1000;
             mkCall (JS.Num 1) (Some "a"%string) "r" 1000] = [true; true].
Proof. vm_compute. reflexivity. Qed.

(** An identity that names an inherited method is granted the burst and
    the call after it: its level is no number. *)
Example inherited_method_burst :
  answers pool5 [mkCall (JS.Num 5) (Some "constructor"%string) "r" 1001000;
                 mkCall (JS.Num 1) (Some "constructor"%string) "r" 1001000]
  = [true; true].
Proof. vm_compute. reflexivity. Qed.



(** ** Identities that name inherited methods *)

(** X19: an identity that names a method every object inherits, such as
    ["constructor"], leads [accept] to that method, not to a record.
    While the method and [Object.prototype] carry no [lastDrip], the
    elapsed time is no number: under a truthy [bucketSize] and a truthy
    rate the call is granted exactly when its count is not above
    [bucketSize], at every clock reading, and the level it leaves is
    [NaN]. *)
Theorem inherited_method_never_throttled (w : World) (count : JS.value)
    (k rnd : string) (now : Z) :
  k <> ""%string ->
  is_builtin k = true ->
  storage (bucket w) !! k = None ->
  read_lastDrip (realm w) (TBuiltin k) = None ->
  JS.truthy (bucketSize (bucket w)) = true ->
  JS.truthy (tokensPerInterval (bucket w)) = true ->
  account_of (snd (accept w count (Some k) rnd now)) k = Some (TBuiltin k)
  /\ fst (accept w count (Some k) rnd now)
     = negb (JS.gt count (bucketSize (bucket w)))
  /\ (JS.gt count (bucketSize (bucket w)) = false ->
      level (snd (accept w count (Some k) rnd now)) k = Some (JS.Num nan)).
Proof.
  intros Hk Hb Hown Hts Hcap Hrate.
  assert (Hproto : k <> "__proto__"%string).
  { intros ->. discriminate. }
  assert (Happ : found_or_new (realm w) (storage (bucket w)) k = TBuiltin k).
  { unfold found_or_new, storage_get, inherited.
    destruct (String.eqb_spec k "__proto__"); [contradiction|].
    rewrite Hown, Hb. reflexivity. }
  pose proof (accept_account w count (Some k) rnd now) as Hacc.
  pose proof (accept_level w count (Some k) rnd now) as Hlev.
  cbv zeta in Hacc, Hlev. rewrite resolve_explicit in Hacc, Hlev by exact Hk.
  rewrite Happ in Hacc, Hlev.
  pose proof (serve_same (bucket w) (realm w) (TBuiltin k) count now) as Hs.
  split.
  { rewrite Hacc. f_equal.
    destruct (snd (snd (serve _ _ _ _ _))); cbn in Hs; try contradiction.
    congruence. }
  rewrite Hlev. rewrite accept_serve. cbv zeta. cbn [fst].
  rewrite resolve_explicit by exact Hk. rewrite Happ.
  destruct (JS.gt count (bucketSize (bucket w))) eqn:Hover.
  - split; [|discriminate]. unfold serve. rewrite Hcap, Hover. reflexivity.
  - destruct (serve_object (bucket w) (realm w) (TBuiltin k) count now
                (JS.Num nan) eq_refl Hcap Hover) as (Ha & Hc & _).
    { rewrite Hrate. symmetry. unfold refilled, JS.math_min. apply Num_nan.
      rewrite fmin_SF.
      fold (SFof (JS.add (read_content (realm w) (TBuiltin k))
                    (JS.mul (deltaMS (realm w) (TBuiltin k) now)
                       (ratio (bucket w))))).
      rewrite SFof_add, SFof_mul, SFof_deltaMS, Hts. cbn [time_value].
      change (SFof JS.Undefined) with S754_nan.
      rewrite SF64sub_nan_r, SFmax_nan_l, SF64mul_nan_l, SF64add_nan_r.
      reflexivity. }
    rewrite Ha, Hc. rewrite (gt_nan_r count (JS.Num nan)) by reflexivity.
    split; [reflexivity|]. intros _.
    rewrite (sub_nan_l (JS.Num nan) count) by reflexivity. reflexivity.
Qed.

Lemma inherited_method_never_throttled_witness :
  fst (accept pool5 (JS.Num 5) (Some "constructor"%string) "r" 1000500) = true.
Proof.
  exact (proj1 (proj2 (inherited_method_never_throttled pool5 (JS.Num 5)
                         "constructor" "r" 1000500
                         ltac:(discriminate) eq_refl eq_refl eq_refl eq_refl
                         eq_refl))).
Defined.

(** ** Identities that reach [Object.prototype] *)

(** X20: the identity [__proto__] leads [accept] to [Object.prototype]
    itself.  The call adds no key to the storage; when it gets past the
    size test under a truthy rate, the refill sets [lastDrip] on
    [Object.prototype], and from then on the identity ["lastDrip"], when
    the storage does not own it, resolves to that number instead of to no
    account. *)
Theorem proto_call_writes_prototype (w : World) (count : JS.value)
    (rnd : string) (now : Z) :
  JS.truthy (bucketSize (bucket w)) = true ->
  JS.truthy (tokensPerInterval (bucket w)) = true ->
  JS.gt count (bucketSize (bucket w)) = false ->
  let w' := snd (accept w count (Some "__proto__"%string) rnd now) in
  account_of w' "__proto__" = Some TObjectPrototype
  /\ storage (bucket w') = storage (bucket w)
  /\ bag_lastDrip (object_prototype (realm w')) = Some now
  /\ (storage (bucket w) !! "lastDrip"%string = None ->
      storage_get (realm w') (storage (bucket w')) "lastDrip"
      = Some (TPrimitive (JS.of_Z now))).
Proof.
  intros Hcap Hrate Hfit. cbv zeta.
  assert (Happ : found_or_new (realm w) (storage (bucket w)) "__proto__"
                 = TObjectPrototype) by reflexivity.
  pose proof (serve_same (bucket w) (realm w) TObjectPrototype count now)
    as Hs.
  destruct (serve_object (bucket w) (realm w) TObjectPrototype count now _
              eq_refl Hcap Hfit eq_refl) as (_ & _ & Ht).
  rewrite Hrate in Ht.
  rewrite accept_serve. cbv zeta.
  change (resolve (Some "__proto__"%string) rnd) with "__proto__"%string.
  rewrite Happ. cbn [snd realm bucket set_storage storage].
  destruct (snd (snd (serve (bucket w) (realm w) TObjectPrototype count now)))
    as [a|f| |p] eqn:Es; cbn in Hs; try contradiction.
  cbn [read_lastDrip] in Ht. cbn [storage_set].
  split; [reflexivity|]. split; [reflexivity|]. split; [exact Ht|].
  intros Hown. unfold storage_get, inherited. cbn [String.eqb].
  rewrite Hown, Ht. reflexivity.
Qed.

Lemma proto_call_writes_prototype_witness :
  storage_get
    (realm (snd (accept pool5 (JS.Num 1) (Some "__proto__"%string) "r" 500)))
    (storage (bucket (snd (accept pool5 (JS.Num 1) (Some "__proto__"%string)
                             "r" 500))))
    "lastDrip"
  = Some (TPrimitive (JS.of_Z 500)).
Proof.
  exact (proj2 (proj2 (proj2 (proto_call_writes_prototype pool5 (JS.Num 1) "r"
                                500 eq_refl eq_refl eq_refl))) eq_refl).
Defined.

(** X21: an identity that resolves to an inherited number (["content"]
    or ["lastDrip"] once they are set on [Object.prototype]) has no
    record: the number is stored under the key, the refill and the debit
    write nothing, and a call that gets past the size test is granted
    exactly when its count is not above the [content] of
    [Object.prototype], which it leaves as it is. *)
Theorem inherited_number_account (w : World) (count : JS.value)
    (uniqueID : option string) (rnd : string) (now : Z) (p : float) :
  found_or_new (realm w) (storage (bucket w)) (resolve uniqueID rnd)
  = TPrimitive p ->
  JS.truthy (bucketSize (bucket w)) = true ->
  JS.gt count (bucketSize (bucket w)) = false ->
  let k := resolve uniqueID rnd in
  let w' := snd (accept w count uniqueID rnd now) in
  let held := default JS.Undefined (bag_content (object_prototype (realm w))) in
  fst (accept w count uniqueID rnd now) = negb (JS.gt count held)
  /\ realm w' = realm w
  /\ storage (bucket w') !! k = Some (SPrimitive p)
  /\ level w' k = Some held.
Proof.
  intros Happ Hcap Hfit. cbv zeta.
  pose proof (accept_level w count uniqueID rnd now) as Hlev.
  cbv zeta in Hlev. rewrite Hlev. rewrite accept_serve. cbv zeta.
  rewrite Happ. rewrite serve_primitive by assumption.
  cbn [fst snd realm bucket set_storage storage storage_set read_content].
  split; [reflexivity|]. split; [reflexivity|]. split; [|reflexivity].
  apply lookup_insert_eq.
Qed.

Lemma inherited_number_account_witness :
  let w := run (new_world (JS.Num 5) (JS.Num 0) (IValue (JS.Num 1000)) 0)
             [mkCall (JS.Num 2) (Some "__proto__"%string) "r" 10] in
  fst (accept w (JS.Num 4) (Some "content"%string) "r" 10) = false
  /\ level (snd (accept w (JS.Num 4) (Some "content"%string) "r" 10)) "content"
     = Some (JS.Num 3).
Proof.
  intros w.
  destruct (inherited_number_account w (JS.Num 4) (Some "content"%string) "r"
              10 3%float eq_refl eq_refl eq_refl) as (H1 & _ & _ & H2).
  split; [exact H1|exact H2].
Defined.

(** ** Readings of the clock *)

Section Clock.

(** An integer of at most 53 binary digits is held by a double: every
    reading of [+new Date()], at most 8.64e15 either way, is a finite
    number. *)
Lemma binary_normalize_small (z : Z) :
  Z.abs z < 2 ^ 53 ->
  valid_binary (binary_normalize prec emax z 0 false) = true
  /\ match binary_normalize prec emax z 0 false with
     | S754_zero _ | S754_finite _ _ _ => True
     | _ => False
     end.
Proof.
  intros Hz.
  assert (Hgen : forall (s : bool) (p : positive),
            Zpos p < 2 ^ 53 ->
            valid_binary (binary_round prec emax s p 0) = true
            /\ match binary_round prec emax s p 0 with
               | S754_zero _ | S754_finite _ _ _ => True
               | _ => False
               end).
  { intros s p Hp.
    destruct (binary_round_shape s p 0) as (m3 & Hb & -> & Hup & _).
    destruct (digits2_pos_bounds p) as (Hlo & Hhi).
    pose proof (digits2_pos_le p 53 Hp) as Hd.
    assert (Hd1 : 1 <= Zpos (digits2_pos p)) by lia.
    set (d := Zpos (digits2_pos p)) in *.
    rewrite Z.add_0_r, fexp_eq in *.
    replace (Z.max (d - 53) (-1074)) with (d - 53) in * by lia.
    rewrite (Hup ltac:(lia)) in *.
    replace (0 - (d - 53)) with (53 - d) in * by lia.
    assert (Hm : 2 ^ 52 <= Zpos p * 2 ^ (53 - d) < 2 ^ 53).
    { assert (Ht : 0 < 2 ^ (53 - d)) by (apply Z.pow_pos_nonneg; lia).
      split.
      - replace 52 with ((d - 1) + (53 - d)) by lia.
        rewrite Z.pow_add_r by lia. apply Z.mul_le_mono_nonneg_r; lia.
      - replace 53 with (d + (53 - d)) at 2 by lia.
        rewrite Z.pow_add_r by lia. apply Z.mul_lt_mono_pos_r; lia. }
    assert (H52 : 0 < 2 ^ 52) by (apply Z.pow_pos_nonneg; lia).
    rewrite pow2_53 in Hm. unfold SFpack.
    destruct (Zpos p * 2 ^ (53 - d)) as [|q|q] eqn:Eq; try lia.
    destruct (Z.eqb_spec (Zpos q) 9007199254740992) as [E|E]; [lia|].
    destruct (Z.leb_spec (d - 53) 971); [|lia].
    split; [|exact I].
    cbn [SpecFloat.valid_binary]. unfold bounded, canonical_mantissa.
    rewrite fexp_eq. change (Z.sub emax prec) with 971.
    assert (Hq : Zpos (digits2_pos q) = 53).
    { pose proof (digits2_pos_le q 53 ltac:(rewrite pow2_53; lia)).
      pose proof (digits2_pos_ge q 52 ltac:(lia)). lia. }
    rewrite Hq. apply andb_true_intro. split.
    - apply Z.eqb_eq. lia.
    - apply Z.leb_le. lia. }
  destruct z as [|p|p]; cbn [binary_normalize].
  - split; [reflexivity|exact I].
  - apply Hgen. lia.
  - apply Hgen. lia.
Qed.

Lemma date_reading_finite (now : Z) :
  -8640000000000000 <= now <= 8640000000000000 ->
  is_finite (JS.of_Z now) = true.
Proof.
  intros H.
  destruct (binary_normalize_small now) as (Hv & Hs).
  { rewrite pow2_53. lia. }
  rewrite is_finite_SF. unfold JS.of_Z. rewrite Prim2SF_SF2Prim by exact Hv.
  destruct (binary_normalize prec emax now 0 false); try contradiction;
    reflexivity.
Qed.

End Clock.
